(** * Type 42 conversion of the TeX Gyre fonts: model and properties

    A shallow embedding of [scripts/fonts/convert-texgyre-fonts.py].

    The script has two module-level dictionaries, one conversion routine
    ([process_font_entry]) and a batch driver (the [__main__] block).  The
    font library (fontTools), the file system and [os.path] are external:
    they are gathered in the [Platform] interface below and every call to
    them may raise.  Python integers are [Z], [bytes] is [list byte], [str]
    is [string], the insertion-ordered module dictionaries are association
    lists with unique keys, and the cmap returned by the font library, which
    is only ever looked up, is a [gmap]. *)

From Stdlib Require Import ZArith Ascii DecimalString.
From Stdlib.Strings Require Import Byte.
From stdpp Require Import gmap strings list.

Local Open Scope Z_scope.

(** ** Python strings *)

Module Str.

(** [len(s)] *)
Definition len (s : string) : Z := Z.of_nat (String.length s).

Fixpoint take (n : nat) (s : string) : string :=
  match n, s with
  | S n', String c s' => String c (take n' s')
  | _, _ => ""
  end.

Fixpoint drop (n : nat) (s : string) : string :=
  match n, s with
  | S n', String _ s' => drop n' s'
  | _, _ => s
  end.

(** [s[lo:hi]]: a negative bound counts from the end, and both bounds are
    clamped to [0 .. len(s)]. *)
Definition clamp (n i : Z) : Z :=
  if i <? 0 then Z.max (i + n) 0 else Z.min i n.

Definition slice (s : string) (lo hi : Z) : string :=
  let lo' := clamp (len s) lo in
  let hi' := clamp (len s) hi in
  take (Z.to_nat (hi' - lo')) (drop (Z.to_nat lo') s).

(** [s.startswith(p)] *)
Definition startswith (s p : string) : bool := String.prefix p s.

(** [s.replace(old, new)] for a non-empty [old]: occurrences are replaced
    left to right and do not overlap.  [skip] counts the characters of a
    matched occurrence that are still to be passed over. *)
Fixpoint replace_from (old new : string) (skip : nat) (s : string) : string :=
  match s with
  | "" => ""
  | String c s' =>
      match skip with
      | S k => replace_from old new k s'
      | O =>
          if String.prefix old s
          then new +:+ replace_from old new (String.length old - 1) s'
          else String c (replace_from old new 0 s')
      end
  end.

Definition replace (s old new : string) : string := replace_from old new 0 s.

(** [str(n)] and the [{n}] of an f-string, for an [int]. *)
Definition of_int (n : Z) : string := NilZero.string_of_int (Z.to_int n).

(** [chr(n)], for a code point below 256. *)
Definition chr (n : Z) : string := String (ascii_of_N (Z.to_N n)) "".

Definition upper_char (c : ascii) : ascii :=
  let n := N_of_ascii c in
  if ((97 <=? n) && (n <=? 122))%N then ascii_of_N (n - 32) else c.

(** [s.upper()], on ASCII text. *)
Fixpoint upper (s : string) : string :=
  match s with
  | "" => ""
  | String c s' => String (upper_char c) (upper s')
  end.

(** The concatenation of a list of strings. *)
Definition cat (l : list string) : string := foldr String.append "" l.

End Str.

(** ** [binascii] *)

Module Binascii.

Definition hexdigit (n : N) : ascii :=
  match n with
  | 0 => "0" | 1 => "1" | 2 => "2" | 3 => "3" | 4 => "4" | 5 => "5"
  | 6 => "6" | 7 => "7" | 8 => "8" | 9 => "9" | 10 => "a" | 11 => "b"
  | 12 => "c" | 13 => "d" | 14 => "e" | _ => "f"
  end%N%char.

(** [binascii.hexlify(data).decode("ascii")]: two lower-case digits per
    byte, high nibble first. *)
Fixpoint hexlify (data : list byte) : string :=
  match data with
  | [] => ""
  | b :: data' =>
      String (hexdigit (Byte.to_N b / 16))
        (String (hexdigit (Byte.to_N b mod 16)) (hexlify data'))
  end.

Definition hexval (c : ascii) : option N :=
  let n := N_of_ascii c in
  if ((48 <=? n) && (n <=? 57))%N then Some (n - 48)%N
  else if ((65 <=? n) && (n <=? 70))%N then Some (n - 55)%N
  else if ((97 <=? n) && (n <=? 102))%N then Some (n - 87)%N
  else None.

(** The byte that two hex digits stand for. *)
Definition unhex_pair (c1 c2 : ascii) : option byte :=
  match hexval c1, hexval c2 with
  | Some h, Some l => Byte.of_N (16 * h + l)
  | _, _ => None
  end.

(** [binascii.unhexlify(s)]: the decoder, [None] where Python raises (odd
    length or a character that is not a hex digit). *)
Fixpoint unhexlify (s : string) : option (list byte) :=
  match s with
  | "" => Some []
  | String c1 (String c2 s') =>
      match unhex_pair c1 c2, unhexlify s' with
      | Some b, Some data => Some (b :: data)
      | _, _ => None
      end
  | String _ "" => None
  end.

End Binascii.

(** ** Insertion-ordered dictionaries *)

Definition dict (K V : Type) : Type := list (K * V).

Module Dict.
Section Ops.
Context {K V : Type} `{EqDecision K}.

(** [d[k] = v]: an existing key keeps its position, a new one goes last. *)
Fixpoint setitem (k : K) (v : V) (d : dict K V) : dict K V :=
  match d with
  | [] => [(k, v)]
  | (k', v') :: d' =>
      if decide (k = k') then (k', v) :: d' else (k', v') :: setitem k v d'
  end.

(** A dictionary display [{k1: v1, k2: v2, ...}]: the pairs are stored
    from left to right. *)
Definition display (kvs : list (K * V)) : dict K V :=
  foldl (λ d kv, setitem kv.1 kv.2 d) [] kvs.

Definition items (d : dict K V) : list (K * V) := d.
Definition keys (d : dict K V) : list K := d.*1.
Definition values (d : dict K V) : list V := d.*2.
Definition len (d : dict K V) : Z := Z.of_nat (length d).
End Ops.
End Dict.

(** ** Module-level state *)

(** The two module dictionaries.  They are ordinary mutable [dict] objects
    bound to global names, so they are part of the state the program runs
    in. *)
Record Globals : Type := {
  PS_TO_FILENAME : dict string string;
  STD_ENC_MAP : dict string Z
}.

(** The dictionary display bound to [PS_TO_FILENAME]. *)
Definition PS_TO_FILENAME_display : list (string * string) := [
  ("TG-Heros",             "texgyreheros-regular.ttf");
  ("TG-Heros-Bold",        "texgyreheros-bold.ttf");
  ("TG-Heros-Oblique",     "texgyreheros-italic.ttf");
  ("TG-Heros-BoldOblique", "texgyreheros-bolditalic.ttf");

  ("TG-Heros-Narrow",             "texgyreheroscn-regular.ttf");
  ("TG-Heros-Narrow-Bold",        "texgyreheroscn-bold.ttf");
  ("TG-Heros-Narrow-Oblique",     "texgyreheroscn-italic.ttf");
  ("TG-Heros-Narrow-BoldOblique", "texgyreheroscn-bolditalic.ttf");

  ("TG-Termes",             "texgyretermes-regular.ttf");
  ("TG-Termes-Bold",        "texgyretermes-bold.ttf");
  ("TG-Termes-Italic",      "texgyretermes-italic.ttf");
  ("TG-Termes-BoldItalic",  "texgyretermes-bolditalic.ttf");

  ("TG-Cursor",             "texgyrecursor-regular.ttf");
  ("TG-Cursor-Bold",        "texgyrecursor-bold.ttf");
  ("TG-Cursor-Oblique",     "texgyrecursor-italic.ttf");
  ("TG-Cursor-BoldOblique", "texgyrecursor-bolditalic.ttf");

  ("TG-Adventor",             "texgyreadventor-regular.ttf");
  ("TG-Adventor-Bold",        "texgyreadventor-bold.ttf");
  ("TG-Adventor-Oblique",     "texgyreadventor-italic.ttf");
  ("TG-Adventor-BoldOblique", "texgyreadventor-bolditalic.ttf");

  ("TG-Bonum",             "texgyrebonum-regular.ttf");
  ("TG-Bonum-Bold",        "texgyrebonum-bold.ttf");
  ("TG-Bonum-Oblique",     "texgyrebonum-italic.ttf");
  ("TG-Bonum-BoldOblique", "texgyrebonum-bolditalic.ttf");

  ("TG-Schola",             "texgyreschola-regular.ttf");
  ("TG-Schola-Bold",        "texgyreschola-bold.ttf");
  ("TG-Schola-Oblique",     "texgyreschola-italic.ttf");
  ("TG-Schola-BoldOblique", "texgyreschola-bolditalic.ttf");

  ("TG-Pagella",             "texgyrepagella-regular.ttf");
  ("TG-Pagella-Bold",        "texgyrepagella-bold.ttf");
  ("TG-Pagella-Oblique",     "texgyrepagella-italic.ttf");
  ("TG-Pagella-BoldOblique", "texgyrepagella-bolditalic.ttf");

  ("TG-Chorus", "texgyrechorus-mediumitalic.ttf")
].

(** The dictionary display bound to [STD_ENC_MAP]. *)
Definition STD_ENC_MAP_display : list (string * Z) := [
  ("space", 0x0020); ("exclam", 0x0021); ("quotedbl", 0x0022); ("numbersign", 0x0023);
  ("dollar", 0x0024); ("percent", 0x0025); ("ampersand", 0x0026); ("quoteright", 0x0027);
  ("parenleft", 0x0028); ("parenright", 0x0029); ("asterisk", 0x002A); ("plus", 0x002B);
  ("comma", 0x002C); ("hyphen", 0x002D); ("period", 0x002E); ("slash", 0x002F);
  ("colon", 0x003A); ("semicolon", 0x003B); ("less", 0x003C); ("equal", 0x003D);
  ("greater", 0x003E); ("question", 0x003F); ("at", 0x0040); ("bracketleft", 0x005B);
  ("backslash", 0x005C); ("bracketright", 0x005D); ("asciicircum", 0x005E);
  ("underscore", 0x005F); ("quoteleft", 0x0060); ("braceleft", 0x007B); ("bar", 0x007C);
  ("braceright", 0x007D); ("asciitilde", 0x007E);

  ("exclamdown", 0x00A1); ("cent", 0x00A2); ("sterling", 0x00A3); ("fraction", 0x2044);
  ("yen", 0x00A5); ("florin", 0x0192); ("section", 0x00A7); ("currency", 0x00A4);
  ("quotesingle", 0x0027); ("quotedblleft", 0x201C); ("guillemotleft", 0x00AB);
  ("guilsinglleft", 0x2039); ("guilsinglright", 0x203A); ("fi", 0xFB01); ("fl", 0xFB02);
  ("endash", 0x2013); ("dagger", 0x2020); ("daggerdbl", 0x2021); ("periodcentered", 0x00B7);
  ("paragraph", 0x00B6); ("bullet", 0x2022); ("quotesinglbase", 0x201A);
  ("quotedblbase", 0x201E); ("quotedblright", 0x201D); ("guillemotright", 0x00BB);
  ("ellipsis", 0x2026); ("perthousand", 0x2030); ("questiondown", 0x00BF); ("grave", 0x0060);
  ("acute", 0x00B4); ("circumflex", 0x02C6); ("tilde", 0x02DC); ("macron", 0x00AF);
  ("breve", 0x02D8); ("dotaccent", 0x02D9); ("dieresis", 0x00A8); ("ring", 0x02DA);
  ("cedilla", 0x00B8); ("hungarumlaut", 0x02DD); ("ogonek", 0x02DB); ("caron", 0x02C7);
  ("emdash", 0x2014); ("AE", 0x00C6); ("ordfeminine", 0x00AA); ("Lslash", 0x0141);
  ("Oslash", 0x00D8); ("OE", 0x0152); ("ordmasculine", 0x00BA); ("ae", 0x00E6);
  ("dotlessi", 0x0131); ("lslash", 0x0142); ("oslash", 0x00F8); ("oe", 0x0153);
  ("germandbls", 0x00DF); ("minus", 0x2212)
].

Definition digit_names : list string :=
  ["zero"; "one"; "two"; "three"; "four"; "five"; "six"; "seven"; "eight"; "nine"].

(** [for i in range(n): d = body i d], on a value that the body updates. *)
Definition for_range {S : Type} (n : nat) (body : Z → S → S) (s : S) : S :=
  foldl (λ s i, body (Z.of_nat i) s) s (seq 0 n).

(** The three loops that add the digits and the letters to [STD_ENC_MAP].
    The index [i] of [digit_names] stays below its length, 10, so the
    subscript never raises. *)
Definition add_alphanumerics (d : dict string Z) : dict string Z :=
  let d := for_range 10 (λ i, Dict.setitem (digit_names !!! Z.to_nat i) (0x30 + i)) d in
  let d := for_range 26 (λ i, Dict.setitem (Str.chr (65 + i)) (65 + i)) d in
  for_range 26 (λ i, Dict.setitem (Str.chr (97 + i)) (97 + i)) d.

(** The globals once the module body (everything above the definition of
    [process_font_entry]) has run. *)
Definition globals_at_load : Globals := {|
  PS_TO_FILENAME := Dict.display PS_TO_FILENAME_display;
  STD_ENC_MAP := add_alphanumerics (Dict.display STD_ENC_MAP_display)
|}.

(** The state of a run: the module globals, what was printed (one entry
    per [print] call) and the text files written so far, by path. *)
Record World : Type := {
  globals : Globals;
  stdout : list string;
  files : gmap string string
}.

Definition Loaded (w : World) : Prop := globals w = globals_at_load.

(** ** The platform: fontTools, [os.path] and the file system *)

(** The [head] table of a font. *)
Record Head : Type := { xMin : Z; yMin : Z; xMax : Z; yMax : Z }.

(** [Exn] stands for the instances of Python's [Exception], which is what
    [except Exception] catches.  A font object is a value of [TTFont];
    [subsetter_subset], which changes the font in place, returns the
    changed font.  Results are [inl e] when the call raises [e]. *)
Class Platform : Type := {
  Exn : Type;
  TTFont : Type;
  (** [str(e)] *)
  str_exn : Exn → string;
  (** the [TypeError] of [uni in None] *)
  TypeError_NoneType : Exn;
  (** [os.path.dirname(__file__)] *)
  dirname : string;
  (** [os.path.join(a, *p)] *)
  os_path_join : string → list string → string;
  os_path_exists : string → bool;
  (** [TTFont(source_file)] *)
  TTFont_open : string → Exn + TTFont;
  (** [Subsetter(options)], [populate(unicodes=...)] and [subset(tt)], for
      options that differ from the defaults in [drop_tables] only *)
  subsetter_subset : list string → list Z → TTFont → Exn + TTFont;
  (** [tt.getBestCmap()], which is [None] for a font without Unicode cmap *)
  getBestCmap : TTFont → Exn + option (gmap Z string);
  getGlyphID : TTFont → string → Exn + Z;
  (** [tt.save(buf); buf.getvalue()] on a fresh [io.BytesIO] *)
  save : TTFont → Exn + list byte;
  (** [tt['head']] *)
  getitem_head : TTFont → Exn + Head;
  (** the exception raised by [open(path, "w")], if any *)
  open_error : string → option Exn;
  (** the exception raised by [f.write(s)], if any, for the file at a path
      that holds some text already *)
  write_error : string → string → string → option Exn
}.

(** ** Computations *)

Inductive outcome `{Platform} (A : Type) : Type :=
| Return (a : A)     (** normal completion *)
| Raise (e : Exn)    (** an exception propagates to the caller *)
| Diverge.           (** a [while] loop did not end within its budget *)
Arguments Return {_ _} a.
Arguments Raise {_ _} e.
Arguments Diverge {_ _}.

Definition M `{Platform} (A : Type) : Type := World → outcome A * World.

Global Instance M_ret `{Platform} : MRet M := λ A a w, (Return a, w).

Global Instance M_bind `{Platform} : MBind M := λ A B k m w,
  match m w with
  | (Return a, w') => k a w'
  | (Raise e, w') => (Raise e, w')
  | (Diverge, w') => (Diverge, w')
  end.

Section Program.
Context `{Platform}.

Definition raise {A : Type} (e : Exn) : M A := λ w, (Raise e, w).
Definition diverge {A : Type} : M A := λ w, (Diverge, w).

(** A call into the platform. *)
Definition call {A : Type} (r : Exn + A) : M A :=
  match r with inl e => raise e | inr a => mret a end.

(** Reading a module global. *)
Definition global {A : Type} (name : Globals → A) : M A :=
  λ w, (Return (name (globals w)), w).

Definition print (s : string) : M unit := λ w,
  (Return (), {| globals := globals w; stdout := stdout w ++ [s]; files := files w |}).

Definition set_file (path text : string) (w : World) : World :=
  {| globals := globals w; stdout := stdout w; files := <[path := text]> (files w) |}.

(** The text of the file at [path], empty when there is none. *)
Definition text_of (path : string) (w : World) : string :=
  default "" (files w !! path).

(** [open(path, "w")]: the file is created or truncated.  The handle is
    the path. *)
Definition open_w (path : string) : M string := λ w,
  match open_error path with
  | Some e => (Raise e, w)
  | None => (Return path, set_file path "" w)
  end.

(** [f.write(s)] *)
Definition write (f s : string) : M unit := λ w,
  match write_error f (text_of f w) s with
  | Some e => (Raise e, w)
  | None => (Return (), set_file f (text_of f w +:+ s) w)
  end.

End Program.


(** ** The script *)

Definition LF : string := String (ascii_of_N 10) "".

Definition CHUNK_SIZE : Z := 32768.

Definition drop_tables : list string := [
  "DSIG"; "FFTM"; "GDEF"; "GPOS"; "GSUB"; "LTSH"; "VDMX"; "hdmx";
  "kern"; "vhea"; "vmtx"; "prep"; "cvt "; "fpgm"; "gasp";
  "name"; "OS/2"; "post"
].

Section Script.
Context `{Platform}.

(** [for name, uni in STD_ENC_MAP.items(): ...], which appends to
    [charstrings].  The font object, [tt] in the script, is [tt0] as loaded
    and [tt1] once subsetted. *)
Fixpoint for_items (tt1 : TTFont) (cmap : option (gmap Z string))
    (items : list (string * Z)) (charstrings : list string) : M (list string) :=
  match items with
  | [] => mret charstrings
  | (name, uni) :: items' =>
      match cmap with
      | None => raise TypeError_NoneType
      | Some cm =>
          match cm !! uni with
          | Some glyph_name =>
              gid ← call (getGlyphID tt1 glyph_name);
              for_items tt1 cmap items'
                (charstrings ++ ["/" +:+ name +:+ " " +:+ Str.of_int gid +:+ " def"])
          | None => for_items tt1 cmap items' charstrings
          end
      end
  end.

(** [for c in charstrings: ...], which writes the entries four to a line. *)
Fixpoint for_charstrings (f : string) (charstrings : list string) (c_count : Z) : M unit :=
  match charstrings with
  | [] => mret ()
  | c :: charstrings' =>
      write f ("    " +:+ c) ;;
      (if c_count `mod` 4 =? 0 then write f LF else write f " ") ;;
      for_charstrings f charstrings' (c_count + 1)
  end.

(** [while hex_pos < len(hex_str): ...] *)
Fixpoint while_hex_pos (budget : nat) (f hex_str : string) (hex_pos : Z) : M unit :=
  if hex_pos <? Str.len hex_str then
    match budget with
    | O => diverge
    | S budget' =>
        let segment := Str.slice hex_str hex_pos (hex_pos + 70) in
        (if hex_pos =? 0 then write f (segment +:+ LF)
         else write f ("      " +:+ segment +:+ LF)) ;;
        while_hex_pos budget' f hex_str (hex_pos + 70)
    end
  else mret ().

(** [while offset < len(binary_data): ...] *)
Fixpoint while_offset (budget : nat) (f : string) (binary_data : list byte)
    (offset : Z) : M unit :=
  if offset <? Z.of_nat (length binary_data) then
    match budget with
    | O => diverge
    | S budget' =>
        let chunk :=
          take (Z.to_nat CHUNK_SIZE) (drop (Z.to_nat offset) binary_data) in
        let hex_str := Str.upper (Binascii.hexlify chunk) in
        write f "    <" ;;
        while_hex_pos (String.length hex_str) f hex_str 0 ;;
        write f ("    >" +:+ LF) ;;
        while_offset budget' f binary_data (offset + CHUNK_SIZE)
    end
  else mret ().

Definition process_font_entry (ps_name filename : string) : M unit :=
  let source_file := os_path_join dirname ["ttfs"; filename] in
  print ("Generating " +:+ ps_name +:+ " from " +:+ source_file +:+ "...") ;;
  if negb (os_path_exists source_file) then
    print ("  [SKIPPED] File not found: " +:+ source_file)
  else
    match TTFont_open source_file with
    | inl e => print ("  [ERROR] Could not load font: " +:+ str_exn e)
    | inr tt0 =>
        unicodes ← global (λ g, Dict.values (STD_ENC_MAP g));
        tt1 ← call (subsetter_subset drop_tables unicodes tt0);
        cmap ← call (getBestCmap tt1);
        items ← global (λ g, Dict.items (STD_ENC_MAP g));
        charstrings ← for_items tt1 cmap items [];
        binary_data ← call (save tt1);
        let out_name := os_path_join dirname ["output"; ps_name +:+ ".ps"] in
        f ← open_w out_name;
        write f ("% Derived from " +:+ Str.replace filename ".ttf" "" +:+
                 " which is licensed under the GUST Font License (GFL)" +:+ LF) ;;
        write f ("% The original TeXGyre fonts can be downloaded from " +:+
                 "https://www.gust.org.pl/projects/e-foundry/tex-gyre" +:+ LF) ;;
        write f ("% The license can be accessed at " +:+
                 "https://www.gust.org.pl/projects/e-foundry/licenses/GUST-FONT-LICENSE.txt/view" +:+
                 LF +:+ LF) ;;
        write f ("11 dict begin" +:+ LF) ;;
        write f ("  /FontName /" +:+ ps_name +:+ " def" +:+ LF) ;;
        write f ("  /FontType 42 def" +:+ LF) ;;
        write f ("  /FontMatrix [1 0 0 1 0 0] def" +:+ LF) ;;
        write f ("  /PaintType 0 def" +:+ LF) ;;
        write f ("  /Encoding StandardEncoding def" +:+ LF) ;;
        h ← call (getitem_head tt1);
        write f ("  /FontBBox [" +:+ Str.of_int (xMin h) +:+ " " +:+ Str.of_int (yMin h) +:+
                 " " +:+ Str.of_int (xMax h) +:+ " " +:+ Str.of_int (yMax h) +:+
                 "] def" +:+ LF) ;;
        write f ("  /CharStrings " +:+ Str.of_int (Z.of_nat (length charstrings) + 5) +:+
                 " dict dup begin" +:+ LF) ;;
        write f ("    /.notdef 0 def" +:+ LF) ;;
        for_charstrings f charstrings 1 ;;
        write f (LF +:+ "  end def" +:+ LF) ;;
        write f ("  /sfnts [" +:+ LF) ;;
        while_offset (length binary_data) f binary_data 0 ;;
        write f ("  ] def" +:+ LF) ;;
        write f ("/" +:+ ps_name +:+ " currentdict end definefont pop" +:+ LF) ;;
        print ("  -> Success: " +:+ out_name +:+ " written.")
    end.

(** [for ps_name, filename in PS_TO_FILENAME.items(): ...] *)
Fixpoint for_entries (items : list (string * string)) : M unit :=
  match items with
  | [] => mret ()
  | (ps_name, filename) :: items' =>
      process_font_entry ps_name filename ;;
      for_entries items'
  end.

(** The [__main__] block. *)
Definition main : M unit :=
  n ← global (λ g, Dict.len (PS_TO_FILENAME g));
  print ("Starting conversion for " +:+ Str.of_int n +:+ " fonts...") ;;
  items ← global (λ g, Dict.items (PS_TO_FILENAME g));
  for_entries items ;;
  print "Batch processing complete.".

End Script.


(** ** Reading a run *)

Section Reading.
Context `{Platform}.

(** The two paths [process_font_entry] computes. *)
Definition source_file (filename : string) : string :=
  os_path_join dirname ["ttfs"; filename].

Definition out_name (ps_name : string) : string :=
  os_path_join dirname ["output"; ps_name +:+ ".ps"].

(** A successful conversion: the source file is there, it loads, the
    subsetter turns the loaded font into [tt1], and the call returns
    normally, in world [w']. *)
Definition converts (ps_name filename : string) (w : World) (tt1 : TTFont)
    (w' : World) : Prop :=
  os_path_exists (source_file filename) = true ∧
  (∃ tt0, TTFont_open (source_file filename) = inr tt0 ∧
          subsetter_subset drop_tables (Dict.values (STD_ENC_MAP (globals w))) tt0
            = inr tt1) ∧
  process_font_entry ps_name filename w = (Return (), w').

(** [w'] is [w] with [s] appended to the file [f], which [w] holds. *)
Definition wrote (f s : string) (w w' : World) : Prop :=
  ∀ t, files w !! f = Some t → w' = set_file f (t +:+ s) w.

(** The world after the first [print] of [process_font_entry]. *)
Definition announced (ps_name filename : string) (w : World) : World :=
  {| globals := globals w;
     stdout := stdout w ++ ["Generating " +:+ ps_name +:+ " from " +:+
                            source_file filename +:+ "..."];
     files := files w |}.

(** The [CharStrings] definition that the entry [(name, uni)] of the
    encoding table gives rise to, if any. *)
Definition def_of (tt1 : TTFont) (cm : gmap Z string) (item : string * Z)
    : option (string * Z) :=
  match cm !! item.2 with
  | Some glyph_name =>
      match getGlyphID tt1 glyph_name with
      | inr gid => Some (item.1, gid)
      | inl _ => None
      end
  | None => None
  end.

End Reading.

(** The text of one [CharStrings] definition. *)
Definition entry (d : string * Z) : string :=
  "/" +:+ d.1 +:+ " " +:+ Str.of_int d.2 +:+ " def".

(** Entries laid out four to a line: every fourth one is followed by a line
    feed, the others by a space. *)
Definition four_per_line (cs : list string) : string :=
  Str.cat (imap (λ i c, "    " +:+ c +:+
                        (if (Z.of_nat i + 1) `mod` 4 =? 0 then LF else " ")) cs).

(** The [CharStrings] dictionary of a resource that defines [.notdef] and
    then [defs], with the capacity it declares. *)
Definition CharStrings_dict (capacity : Z) (defs : list (string * Z)) : string :=
  "  /CharStrings " +:+ Str.of_int capacity +:+ " dict dup begin" +:+ LF +:+
  "    /.notdef 0 def" +:+ LF +:+
  four_per_line (entry <$> defs) +:+
  LF +:+ "  end def" +:+ LF.

(** Sizes of consecutive parts of at most [n] items each, all of them full
    except possibly the last, none empty. *)
Definition blocks_of (n : nat) (sizes : list nat) : Prop :=
  ∀ i k, sizes !! i = Some k →
         (0 < k ≤ n)%nat ∧ (S i < length sizes → k = n)%nat.

(** The lines of one [sfnts] string: the first follows the opening bracket,
    the others are indented. *)
Definition indented (l : string) : string := "      " +:+ l +:+ LF.

Definition hex_lines (lines : list string) : string :=
  match lines with
  | [] => ""
  | l :: ls => l +:+ LF +:+ Str.cat (indented <$> ls)
  end.

(** [text] is a string of the [sfnts] array that holds the bytes [chunk] in
    lines of 70 hex digits. *)
Definition sfnts_string (chunk : list byte) (text : string) : Prop :=
  ∃ lines, Binascii.unhexlify (Str.cat lines) = Some chunk ∧
           blocks_of 70 (String.length <$> lines) ∧
           text = "    <" +:+ hex_lines lines +:+ "    >" +:+ LF.

(** What surrounds the hex digits inside the [sfnts] array: blanks, line
    feeds and the string brackets. *)
Definition is_layout (c : ascii) : bool :=
  bool_decide (c ∈ [" "; ascii_of_N 10; "<"; ">"]%char).

Fixpoint strip_layout (s : string) : string :=
  match s with
  | "" => ""
  | String c s' => if is_layout c then strip_layout s' else String c (strip_layout s')
  end.

Definition is_upper_hex (c : ascii) : bool :=
  bool_decide (c ∈ String.list_ascii_of_string "0123456789ABCDEF").

Fixpoint str_forallb (p : ascii → bool) (s : string) : bool :=
  match s with
  | "" => true
  | String c s' => p c && str_forallb p s'
  end.

(** Consecutive parts of [n] items, as the [while] loops cut them; [budget]
    bounds their number. *)
Fixpoint list_chunks {A : Type} (budget n : nat) (l : list A) : list (list A) :=
  match budget, l with
  | S budget', _ :: _ => take n l :: list_chunks budget' n (drop n l)
  | _, _ => []
  end.

Fixpoint str_chunks (budget n : nat) (s : string) : list string :=
  match budget, s with
  | S budget', String _ _ => Str.take n s :: str_chunks budget' n (Str.drop n s)
  | _, _ => []
  end.

(** The text the loop over [charstrings] writes when it starts at
    [c_count]. *)
Fixpoint charstrings_text (cs : list string) (c_count : Z) : string :=
  match cs with
  | [] => ""
  | c :: cs' =>
      ("    " +:+ c) +:+ (if c_count `mod` 4 =? 0 then LF else " ") +:+
      charstrings_text cs' (c_count + 1)
  end.

(** The text of one [sfnts] string and of the whole array body. *)
Definition segment_text (chunk : list byte) : string :=
  let hex_str := Str.upper (Binascii.hexlify chunk) in
  "    <" +:+ hex_lines (str_chunks (String.length hex_str) 70 hex_str) +:+
  "    >" +:+ LF.

Definition sfnts_text (binary_data : list byte) : string :=
  Str.cat (segment_text <$>
           list_chunks (length binary_data) (Z.to_nat CHUNK_SIZE) binary_data).

Definition license_comment (filename : string) : string :=
  ("% Derived from " +:+ Str.replace filename ".ttf" "" +:+
   " which is licensed under the GUST Font License (GFL)" +:+ LF) +:+
  ("% The original TeXGyre fonts can be downloaded from " +:+
   "https://www.gust.org.pl/projects/e-foundry/tex-gyre" +:+ LF) +:+
  ("% The license can be accessed at " +:+
   "https://www.gust.org.pl/projects/e-foundry/licenses/GUST-FONT-LICENSE.txt/view" +:+
   LF +:+ LF).

Definition FontBBox_line (h : Head) : string :=
  "  /FontBBox [" +:+ Str.of_int (xMin h) +:+ " " +:+ Str.of_int (yMin h) +:+
  " " +:+ Str.of_int (xMax h) +:+ " " +:+ Str.of_int (yMax h) +:+
  "] def" +:+ LF.

(** The whole resource, for the header values [h], the entry texts
    [charstrings] and the font data [binary_data]. *)
Definition Type42_text (ps_name filename : string) (h : Head)
    (charstrings : list string) (binary_data : list byte) : string :=
  license_comment filename +:+
  ("11 dict begin" +:+ LF) +:+
  ("  /FontName /" +:+ ps_name +:+ " def" +:+ LF) +:+
  ("  /FontType 42 def" +:+ LF) +:+
  ("  /FontMatrix [1 0 0 1 0 0] def" +:+ LF) +:+
  ("  /PaintType 0 def" +:+ LF) +:+
  ("  /Encoding StandardEncoding def" +:+ LF) +:+
  FontBBox_line h +:+
  ("  /CharStrings " +:+ Str.of_int (Z.of_nat (length charstrings) + 5) +:+
   " dict dup begin" +:+ LF) +:+
  ("    /.notdef 0 def" +:+ LF) +:+
  charstrings_text charstrings 1 +:+
  (LF +:+ "  end def" +:+ LF) +:+
  ("  /sfnts [" +:+ LF) +:+
  sfnts_text binary_data +:+
  ("  ] def" +:+ LF) +:+
  ("/" +:+ ps_name +:+ " currentdict end definefont pop" +:+ LF).

(** Computations that leave the module globals alone, computations that
    end, and computations that raise nothing. *)
Definition keeps_globals `{Platform} {A : Type} (m : M A) : Prop :=
  ∀ w, globals (m w).2 = globals w.

Definition terminates `{Platform} {A : Type} (m : M A) : Prop :=
  ∀ w, (m w).1 ≠ Diverge.


(** ** A small platform to run the script on *)

Module Demo.

(** A font: its Unicode cmap, its glyph order, its [head] table and what
    saving it yields, which is nothing when the tables cannot be compiled.
    A font that is not [sound] loads but cannot be subsetted. *)
Record Font : Type := {
  cmap : list (Z * string);
  glyph_order : list string;
  head : Head;
  data : option (list byte);
  sound : bool
}.

(** The machine: the files under [ttfs], each of them a font or something
    that does not parse, whether the output directory exists, and how many
    characters the disk still takes. *)
Record Machine : Type := {
  ttfs : list (string * option Font);
  output_dir : bool;
  quota : option nat
}.

(** [os.path.join] on POSIX. *)
Definition join (a : string) (p : list string) : string :=
  foldl (λ path b,
           if Str.startswith b "/" then b
           else if bool_decide (path = "") || Str.startswith (String.rev path) "/"
                then path +:+ b
                else path +:+ "/" +:+ b) a p.

Definition index_of (x : string) (l : list string) : option nat :=
  fst <$> list_find (λ y, y = x) l.

Definition platform (m : Machine) : Platform := {|
  Exn := string;
  TTFont := Font;
  str_exn := id;
  TypeError_NoneType := "argument of type 'NoneType' is not iterable";
  dirname := "scripts/fonts";
  os_path_join := join;
  os_path_exists p := bool_decide (p ∈ (ttfs m).*1);
  TTFont_open p :=
    match list_find (λ entry, entry.1 = p) (ttfs m) with
    | Some (_, (_, Some font)) => inr font
    | _ => inl "Not a TrueType or OpenType font (bad sfntVersion)"
    end;
  subsetter_subset _ unicodes font :=
    if sound font
    then inr {| cmap := filter (λ kv, kv.1 ∈ unicodes) (cmap font);
                glyph_order := glyph_order font;
                head := head font; data := data font; sound := true |}
    else inl "glyf table is corrupt";
  getBestCmap font := inr (Some (list_to_map (cmap font)));
  getGlyphID font glyph_name :=
    match index_of glyph_name (glyph_order font) with
    | Some i => inr (Z.of_nat i)
    | None => inl glyph_name
    end;
  save font :=
    match data font with
    | Some bytes => inr bytes
    | None => inl "cannot compile the tables"
    end;
  getitem_head font := inr (head font);
  open_error p :=
    if output_dir m then None else Some "No such file or directory";
  write_error _ written s :=
    match quota m with
    | Some n =>
        if bool_decide (String.length written + String.length s ≤ n)%nat
        then None else Some "No space left on device"
    | None => None
    end
|}.

Definition heros : Font := {|
  cmap := [(65, "A"); (0x27, "quotesingle"); (48, "zero"); (0x60, "grave");
           (0x3B1, "alpha")];
  glyph_order := [".notdef"; "A"; "quotesingle"; "zero"; "grave"; "alpha"];
  head := {| xMin := -529; yMin := -284; xMax := 1353; yMax := 1148 |};
  data := Some ([x00; x01; x00; x00; xab; xff]%byte ++ replicate 40 x7f%byte);
  sound := true
|}.




Definition heros_ttf : string := "scripts/fonts/ttfs/texgyreheros-regular.ttf".

Definition machine (font : option Font) : Machine :=
  {| ttfs := [(heros_ttf, font)]; output_dir := true; quota := None |}.

Definition no_output_dir : Machine :=
  {| ttfs := [(heros_ttf, Some heros)]; output_dir := false; quota := None |}.


Definition empty_ttfs : Machine :=
  {| ttfs := []; output_dir := true; quota := None |}.

(** The world right after the module has been loaded. *)
Definition w0 : World := {| globals := globals_at_load; stdout := []; files := ∅ |}.

(** The world the conversion of [TG-Heros] ends in, on a machine. *)
Definition after (m : Machine) : World :=
  (@process_font_entry (platform m) "TG-Heros" "texgyreheros-regular.ttf" w0).2.

(** The subsetted [heros] and [greek]. *)
Definition heros_subset : Font := {|
  cmap := [(65, "A"); (0x27, "quotesingle"); (48, "zero"); (0x60, "grave")];
  glyph_order := glyph_order heros;
  head := head heros; data := data heros; sound := true
|}.


End Demo.

(** ** Further notions for the properties of the whole script *)

(** [dict.get(k)]: the value stored under [k], if any. *)
Fixpoint dict_get {K V : Type} `{EqDecision K} (k : K) (d : dict K V) : option V :=
  match d with
  | [] => None
  | (k', v) :: d' => if decide (k = k') then Some v else dict_get k d'
  end.

(** The assignments that the three loops after the display of
    [STD_ENC_MAP] make, in the order they make them. *)
Definition alphanumerics : list (string * Z) :=
  ((λ i, (digit_names !!! i, 0x30 + Z.of_nat i)) <$> seq 0 10) ++
  ((λ i, (Str.chr (65 + Z.of_nat i), 65 + Z.of_nat i)) <$> seq 0 26) ++
  ((λ i, (Str.chr (97 + Z.of_nat i), 97 + Z.of_nat i)) <$> seq 0 26).

(** A computation that leaves an observation [obs] of the world as it is,
    whatever its outcome. *)
Definition preserves `{Platform} {B A : Type} (obs : World → B) (m : M A) : Prop :=
  ∀ w, obs (m w).2 = obs w.

(** Observations that do not see what is printed, or what the file [f]
    holds. *)
Definition ignores_stdout {B : Type} (obs : World → B) : Prop :=
  ∀ g o o' fs,
    obs {| globals := g; stdout := o; files := fs |}
    = obs {| globals := g; stdout := o'; files := fs |}.

Definition ignores_file {B : Type} (f : string) (obs : World → B) : Prop :=
  ∀ g o fs t,
    obs {| globals := g; stdout := o; files := <[f := t]> fs |}
    = obs {| globals := g; stdout := o; files := fs |}.

(** A computation that prints at most one line, as its last step, and only
    when it returns. *)
Definition prints_last `{Platform} {A : Type} (m : M A) : Prop :=
  ∀ w, match (m w).1 with
       | Return _ => ∃ s, stdout (m w).2 = stdout w ++ [s]
       | _ => stdout (m w).2 = stdout w
       end.

(** A computation the outcome of which depends on the globals only, and one
    the outcome of which depends on the globals and on the text of the file
    [f] only. *)
Definition oblivious `{Platform} {A : Type} (m : M A) : Prop :=
  ∀ w1 w2, globals w1 = globals w2 →
           (m w1).1 = (m w2).1 ∧ globals (m w1).2 = globals (m w2).2.


(** The two lines a call prints for a source file that is missing. *)
Definition skipped_lines `{Platform} (entry : string * string) : list string :=
  ["Generating " +:+ entry.1 +:+ " from " +:+ source_file entry.2 +:+ "...";
   "  [SKIPPED] File not found: " +:+ source_file entry.2].

(** The beginning of a resource, up to the line before [/FontBBox]. *)
Definition resource_head (ps_name filename : string) : string :=
  license_comment filename +:+
  ("11 dict begin" +:+ LF) +:+
  ("  /FontName /" +:+ ps_name +:+ " def" +:+ LF) +:+
  ("  /FontType 42 def" +:+ LF) +:+
  ("  /FontMatrix [1 0 0 1 0 0] def" +:+ LF) +:+
  ("  /PaintType 0 def" +:+ LF) +:+
  ("  /Encoding StandardEncoding def" +:+ LF).

(** ** Machines with faults of their own *)

Module Faulty.

(** The platform of a machine, except that its fonts may come without
    Unicode cmap and that reading their [head] table may raise. *)
Definition platform (m : Demo.Machine) (no_cmap : bool) (head_error : option string)
    : Platform := {|
  Exn := string;
  TTFont := Demo.Font;
  str_exn := id;
  TypeError_NoneType := "argument of type 'NoneType' is not iterable";
  dirname := "scripts/fonts";
  os_path_join := Demo.join;
  os_path_exists := @os_path_exists (Demo.platform m);
  TTFont_open := @TTFont_open (Demo.platform m);
  subsetter_subset := @subsetter_subset (Demo.platform m);
  getBestCmap font :=
    if no_cmap then inr None else @getBestCmap (Demo.platform m) font;
  getGlyphID := @getGlyphID (Demo.platform m);
  save := @save (Demo.platform m);
  getitem_head font :=
    match head_error with
    | Some e => inl e
    | None => inr (Demo.head font)
    end;
  open_error := @open_error (Demo.platform m);
  write_error := @write_error (Demo.platform m)
|}.

(** A font the cmap of which names a glyph that its glyph order lacks. *)
Definition orphan : Demo.Font := {|
  Demo.cmap := [(65, "A")];
  Demo.glyph_order := [".notdef"];
  Demo.head := Demo.head Demo.heros;
  Demo.data := Demo.data Demo.heros;
  Demo.sound := true
|}.

(** A loaded world that holds an older output file and a file of no
    concern to the script, after some output. *)
Definition w1 : World := {|
  globals := globals_at_load;
  stdout := ["earlier output"];
  files := {[ "scripts/fonts/output/TG-Heros.ps" := "an older resource";
              "notes.txt" := "keep" ]}
|}.

End Faulty.

(** Unfolds a run of [mret] in the hypothesis [H]. *)
Ltac ret_run H := unfold mret, M_ret in H; simplify_eq.

(** * Properties *)

(** ** Strings *)

Lemma str_app_cons (c : ascii) (s1 s2 : string) :
  String c s1 +:+ s2 = String c (s1 +:+ s2).
Proof. reflexivity. Qed.

Lemma str_app_nil_r (s : string) : s +:+ "" = s.
Proof. induction s as [|c s IH]; [done|]. by rewrite str_app_cons, IH. Qed.

Lemma str_app_assoc (s1 s2 s3 : string) : s1 +:+ s2 +:+ s3 = (s1 +:+ s2) +:+ s3.
Proof. induction s1 as [|c s1 IH]; [done|]. by rewrite !str_app_cons, IH. Qed.

Lemma str_take_drop (n : nat) (s : string) : Str.take n s +:+ Str.drop n s = s.
Proof.
  revert s. induction n as [|n IH]; intros [|c s]; try done.
  simpl. by rewrite str_app_cons, IH.
Qed.

Lemma str_length_take (n : nat) (s : string) :
  String.length (Str.take n s) = (n `min` String.length s)%nat.
Proof.
  revert s. induction n as [|n IH]; intros [|c s]; try done.
  simpl. by rewrite IH.
Qed.

Lemma str_length_drop (n : nat) (s : string) :
  String.length (Str.drop n s) = (String.length s - n)%nat.
Proof.
  revert s. induction n as [|n IH]; intros [|c s]; try done.
  simpl. by rewrite IH.
Qed.

Lemma str_drop_drop (n m : nat) (s : string) :
  Str.drop n (Str.drop m s) = Str.drop (m + n) s.
Proof.
  revert s. induction m as [|m IH]; intros s; [done|].
  destruct s as [|c s]; [by destruct n|]. simpl. apply IH.
Qed.

Lemma str_take_ge (n : nat) (s : string) :
  (String.length s ≤ n)%nat → Str.take n s = s.
Proof.
  revert s. induction n as [|n IH]; intros [|c s] Hn; simpl in *; try done; [lia|].
  rewrite IH; [done|lia].
Qed.

Lemma str_length_nil (s : string) : String.length s = 0%nat → s = "".
Proof. by destruct s. Qed.

(** The slices the script takes: both bounds inside the string or to its
    right. *)
Lemma str_slice_take_drop (s : string) (lo hi : Z) :
  0 ≤ lo ≤ hi → lo ≤ Str.len s →
  Str.slice s lo hi = Str.take (Z.to_nat (hi - lo)) (Str.drop (Z.to_nat lo) s).
Proof.
  unfold Str.slice, Str.clamp, Str.len. intros Hlo Hlen.
  destruct (Z.ltb_spec lo 0), (Z.ltb_spec hi 0); try lia.
  rewrite (Z.min_l lo) by lia.
  destruct (Z.le_gt_cases hi (Z.of_nat (String.length s))).
  - by rewrite Z.min_l by lia.
  - rewrite Z.min_r by lia.
    rewrite !str_take_ge; [done|rewrite str_length_drop; lia..].
Qed.

Lemma str_upper_app (s1 s2 : string) :
  Str.upper (s1 +:+ s2) = Str.upper s1 +:+ Str.upper s2.
Proof.
  induction s1 as [|c s1 IH]; [done|].
  rewrite str_app_cons. simpl. by rewrite IH, str_app_cons.
Qed.

Example slice_ex : Str.slice "0123456789" 3 7 = "3456".
Proof. reflexivity. Qed.

Example replace_ex :
  Str.replace "texgyreheros-regular.ttf" ".ttf" "" = "texgyreheros-regular".
Proof. reflexivity. Qed.

Example of_int_ex :
  (Str.of_int 0, Str.of_int (-12), Str.of_int 1041) = ("0", "-12", "1041").
Proof. reflexivity. Qed.

Example hexlify_ex :
  Str.upper (Binascii.hexlify [x00; xff; x1a]%byte) = "00FF1A".
Proof. reflexivity. Qed.

Example unhexlify_ex : Binascii.unhexlify "00FF1a" = Some [x00; xff; x1a]%byte.
Proof. reflexivity. Qed.

(** ** Hexadecimal text *)

Lemma hexlify_app (d1 d2 : list byte) :
  Binascii.hexlify (d1 ++ d2) = Binascii.hexlify d1 +:+ Binascii.hexlify d2.
Proof.
  induction d1 as [|b d1 IH]; [done|].
  simpl. by rewrite IH, !str_app_cons.
Qed.

Lemma unhex_pair_byte (b : byte) :
  Binascii.unhex_pair (Str.upper_char (Binascii.hexdigit (Byte.to_N b / 16)))
                      (Str.upper_char (Binascii.hexdigit (Byte.to_N b mod 16)))
  = Some b.
Proof. destruct b; reflexivity. Qed.

(** Decoding the upper-cased hex text of some bytes gives the bytes back. *)
Lemma unhexlify_upper_hexlify (d : list byte) :
  Binascii.unhexlify (Str.upper (Binascii.hexlify d)) = Some d.
Proof.
  induction d as [|b d IH]; [done|].
  cbn [Binascii.hexlify Str.upper Binascii.unhexlify].
  by rewrite unhex_pair_byte, IH.
Qed.

(** ** Running computations *)


Section Running.
Context `{Platform}.

Lemma bind_Return {A B : Type} (m : M A) (k : A → M B) w b w' :
  (m ≫= k) w = (Return b, w') →
  ∃ a w1, m w = (Return a, w1) ∧ k a w1 = (Return b, w').
Proof.
  unfold mbind, M_bind. destruct (m w) as [[a|e|] w1]; intros; simplify_eq; eauto.
Qed.

Lemma bind_run_Return {A B : Type} (m : M A) (k : A → M B) w a w1 :
  m w = (Return a, w1) → (m ≫= k) w = k a w1.
Proof. unfold mbind, M_bind. by intros ->. Qed.

Lemma bind_run_Raise {A B : Type} (m : M A) (k : A → M B) w e w1 :
  m w = (Raise e, w1) → (m ≫= k) w = (Raise e, w1).
Proof. unfold mbind, M_bind. by intros ->. Qed.

Lemma call_Return {A : Type} (r : Exn + A) w a w' :
  call r w = (Return a, w') → r = inr a ∧ w' = w.
Proof. destruct r; unfold call, raise, mret, M_ret; intros; by simplify_eq. Qed.

Lemma global_Return {A : Type} (name : Globals → A) w a w' :
  global name w = (Return a, w') → a = name (globals w) ∧ w' = w.
Proof. unfold global. intros; by simplify_eq. Qed.

Lemma open_w_Return path w f w' :
  open_w path w = (Return f, w') →
  open_error path = None ∧ f = path ∧ w' = set_file path "" w.
Proof. unfold open_w. destruct (open_error path); intros; by simplify_eq. Qed.

Lemma write_Return f s w w' :
  write f s w = (Return (), w') →
  write_error f (text_of f w) s = None ∧ w' = set_file f (text_of f w +:+ s) w.
Proof. unfold write. destruct (write_error _ _ _); intros; by simplify_eq. Qed.

(** *** Text appended to an open file *)

Lemma set_file_lookup f t w : files (set_file f t w) !! f = Some t.
Proof. apply lookup_insert_eq. Qed.

Lemma set_file_set_file f t t' w : set_file f t (set_file f t' w) = set_file f t w.
Proof. unfold set_file. cbn. by rewrite insert_insert_eq. Qed.

Lemma wrote_nil f w : wrote f "" w w.
Proof.
  intros t Ht. destruct w as [g o fs]. unfold set_file. cbn in *.
  by rewrite str_app_nil_r, insert_id.
Qed.

Lemma wrote_app f s1 s2 w w1 w2 :
  wrote f s1 w w1 → wrote f s2 w1 w2 → wrote f (s1 +:+ s2) w w2.
Proof.
  intros H1 H2 t Ht. pose proof (H1 t Ht) as ->.
  rewrite (H2 _ (set_file_lookup _ _ _)).
  by rewrite set_file_set_file, str_app_assoc.
Qed.

Lemma wrote_write f s w w' : write f s w = (Return (), w') → wrote f s w w'.
Proof.
  intros [_ ->]%write_Return t Ht. unfold text_of. by rewrite Ht.
Qed.

(** A write followed by more: the text written by both. *)
Lemma wrote_bind f s (k : M unit) rest w w' :
  (write f s ;; k) w = (Return (), w') →
  (∀ w1, k w1 = (Return (), w') → wrote f rest w1 w') →
  wrote f (s +:+ rest) w w'.
Proof.
  intros ([] & w1 & Hw & Hk)%bind_Return Hrest.
  eapply wrote_app; [by apply wrote_write|by apply Hrest].
Qed.

Lemma for_charstrings_wrote f cs c_count w w' :
  for_charstrings f cs c_count w = (Return (), w') →
  wrote f (charstrings_text cs c_count) w w'.
Proof.
  revert c_count w. induction cs as [|c cs IH]; intros c_count w Hrun.
  - cbn in Hrun. ret_run Hrun. apply wrote_nil.
  - cbn [for_charstrings charstrings_text] in *.
    apply wrote_bind with (1 := Hrun). clear Hrun w. intros w Hrun.
    destruct (c_count `mod` 4 =? 0);
      (apply wrote_bind with (1 := Hrun); clear Hrun w; intros w Hrun; by apply IH).
Qed.

Lemma str_drop_nonempty (n : nat) (s : string) :
  (n < String.length s)%nat → ∃ c s', Str.drop n s = String c s'.
Proof.
  intros Hn. destruct (Str.drop n s) as [|c s'] eqn:Hd; [|by eauto].
  apply (f_equal String.length) in Hd. rewrite str_length_drop in Hd. simpl in Hd. lia.
Qed.

Lemma str_drop_ge (n : nat) (s : string) :
  (String.length s ≤ n)%nat → Str.drop n s = "".
Proof. intros Hn. apply str_length_nil. rewrite str_length_drop. lia. Qed.

Lemma while_hex_pos_wrote_from budget f hex_str hex_pos w w' :
  0 < hex_pos →
  while_hex_pos budget f hex_str hex_pos w = (Return (), w') →
  wrote f (Str.cat (indented <$>
             str_chunks budget 70 (Str.drop (Z.to_nat hex_pos) hex_str))) w w'.
Proof.
  revert hex_pos w. induction budget as [|budget IH]; intros hex_pos w Hpos Hrun.
  - cbn in Hrun. destruct (Z.ltb_spec hex_pos (Str.len hex_str)); [done|].
    ret_run Hrun. apply wrote_nil.
  - cbn [while_hex_pos] in Hrun. unfold Str.len in *.
    destruct (Z.ltb_spec hex_pos (Z.of_nat (String.length hex_str))) as [Hlt|Hge].
    + destruct (str_drop_nonempty (Z.to_nat hex_pos) hex_str) as (c & s' & Hd); [lia|].
      cbn [str_chunks]. rewrite Hd, <- Hd. cbn [fmap list_fmap Str.cat foldr].
      destruct (Z.eqb_spec hex_pos 0); [lia|].
      rewrite str_slice_take_drop in Hrun by (unfold Str.len; lia).
      replace (hex_pos + 70 - hex_pos) with 70 in Hrun by lia.
      apply wrote_bind with (1 := Hrun). clear Hrun w. intros w Hrun.
      apply IH in Hrun; [|lia].
      rewrite str_drop_drop. by replace (Z.to_nat hex_pos + 70)%nat
        with (Z.to_nat (hex_pos + 70)) by lia.
    + rewrite str_drop_ge by lia. cbn in Hrun |- *. ret_run Hrun. apply wrote_nil.
Qed.

Lemma while_hex_pos_wrote budget f hex_str w w' :
  while_hex_pos budget f hex_str 0 w = (Return (), w') →
  wrote f (hex_lines (str_chunks budget 70 hex_str)) w w'.
Proof.
  destruct budget as [|budget]; intros Hrun.
  - cbn in Hrun. destruct (Z.ltb_spec 0 (Str.len hex_str)); [done|].
    ret_run Hrun. apply wrote_nil.
  - cbn [while_hex_pos] in Hrun. unfold Str.len in *.
    destruct (Z.ltb_spec 0 (Z.of_nat (String.length hex_str))) as [Hlt|Hge].
    + destruct hex_str as [|c s'] eqn:Hs; [simpl in Hlt; lia|]. rewrite <- Hs in *.
      cbn [str_chunks]. rewrite Hs, <- Hs. cbn [hex_lines].
      rewrite str_slice_take_drop in Hrun by (unfold Str.len; lia).
      change (Z.to_nat 0) with 0%nat in Hrun. change (Z.to_nat (0 + 70 - 0)) with 70%nat in Hrun.
      change (Str.drop 0 hex_str) with hex_str in Hrun. cbn [Z.eqb] in Hrun.
      rewrite str_app_assoc.
      apply wrote_bind with (1 := Hrun). clear Hrun w. intros w Hrun.
      apply while_hex_pos_wrote_from in Hrun; [|lia]. done.
    + destruct hex_str; [|simpl in Hge; lia]. cbn in Hrun |- *.
      ret_run Hrun. apply wrote_nil.
Qed.

End Running.

(** ** The loops of the conversion *)

Section Loops.
Context `{Platform}.

Lemma while_offset_wrote budget f binary_data offset w w' :
  0 ≤ offset →
  while_offset budget f binary_data offset w = (Return (), w') →
  wrote f (Str.cat (segment_text <$>
             list_chunks budget (Z.to_nat CHUNK_SIZE)
               (drop (Z.to_nat offset) binary_data))) w w'.
Proof.
  revert offset w. induction budget as [|budget IH]; intros offset w Hpos Hrun.
  - cbn in Hrun. destruct (Z.ltb_spec offset (Z.of_nat (length binary_data))); [done|].
    ret_run Hrun. apply wrote_nil.
  - cbn [while_offset] in Hrun.
    destruct (Z.ltb_spec offset (Z.of_nat (length binary_data))) as [Hlt|Hge].
    + assert (∃ b rest, drop (Z.to_nat offset) binary_data = b :: rest)
        as (b & rest & Hd).
      { destruct (drop (Z.to_nat offset) binary_data) as [|b rest] eqn:Hd; [|by eauto].
        apply (f_equal length) in Hd. rewrite length_drop in Hd. simpl in Hd. lia. }
      cbn [list_chunks]. rewrite Hd, <- Hd. cbn [fmap list_fmap Str.cat foldr].
      unfold segment_text at 1. rewrite <- !str_app_assoc.
      apply wrote_bind with (1 := Hrun). clear Hrun w. intros w Hrun.
      apply bind_Return in Hrun as ([] & w1 & Hhex%while_hex_pos_wrote & Hrun).
      eapply wrote_app; [exact Hhex|]. clear Hhex w.
      rewrite str_app_assoc.
      apply wrote_bind with (1 := Hrun). clear Hrun w1. intros w Hrun.
      apply IH in Hrun; [|unfold CHUNK_SIZE; lia].
      rewrite drop_drop.
      by replace (Z.to_nat offset + Z.to_nat CHUNK_SIZE)%nat
        with (Z.to_nat (offset + CHUNK_SIZE)) by (unfold CHUNK_SIZE; lia).
    + rewrite drop_ge by lia. cbn. ret_run Hrun. apply wrote_nil.
Qed.

(** The loop over the encoding table changes nothing in the world, and its
    result is the entries of the code points the cmap has, in table order. *)
Lemma for_items_Return tt1 cm items acc w cs w' :
  for_items tt1 (Some cm) items acc w = (Return cs, w') →
  w' = w ∧ cs = acc ++ (entry <$> omap (def_of tt1 cm) items) ∧
  ∀ item g, item ∈ items → cm !! item.2 = Some g →
            ∃ gid, getGlyphID tt1 g = inr gid.
Proof.
  revert acc w. induction items as [|[name uni] items IH]; intros acc w Hrun.
  - cbn in Hrun. ret_run Hrun. rewrite app_nil_r. split_and!; [done..|].
    intros ?? []%elem_of_nil.
  - cbn [for_items] in Hrun. cbn [omap list_omap]. unfold def_of at 1. cbn [fst snd].
    destruct (cm !! uni) as [g|] eqn:Hg.
    + apply bind_Return in Hrun as (gid & w1 & [Hgid ->]%call_Return & Hrun).
      apply IH in Hrun as (-> & -> & Hall). rewrite Hgid.
      split_and!; [done|by rewrite <- app_assoc|].
      intros item g' [->|Hin]%elem_of_cons Hitem; [|by eauto].
      cbn in Hitem. simplify_eq. eauto.
    + apply IH in Hrun as (-> & -> & Hall). split_and!; [done..|].
      intros item g' [->|Hin]%elem_of_cons Hitem; [|by eauto].
      cbn in Hitem. simplify_eq.
Qed.

Lemma for_items_None tt1 items acc w cs w' :
  for_items tt1 None items acc w = (Return cs, w') →
  items = [] ∧ cs = acc ∧ w' = w.
Proof.
  destruct items as [|[name uni] items]; intros Hrun; cbn in Hrun.
  - by ret_run Hrun.
  - unfold raise in Hrun. simplify_eq.
Qed.


End Loops.

(** ** A successful conversion, step by step *)

Section Conversion.
Context `{Platform}.

(** Consumes the leading [write] of the run [H] and adds its text to what
    [Hacc] says was written so far. *)
Ltac write_step H Hacc :=
  let Hw := fresh "Hw" in
  let Hnew := fresh "Hacc" in
  apply bind_Return in H as ([] & ? & Hw & H);
  apply wrote_write in Hw;
  pose proof (wrote_app _ _ _ _ _ _ Hacc Hw) as Hnew;
  clear Hacc Hw; rename Hnew into Hacc.

(** Every phase of a successful conversion succeeded, and the run leaves
    the two messages and the complete resource behind. *)
Lemma converts_inv ps_name filename w tt1 w' :
  converts ps_name filename w tt1 w' →
  ∃ cmap charstrings binary_data h,
    getBestCmap tt1 = inr cmap ∧
    for_items tt1 cmap (Dict.items (STD_ENC_MAP (globals w))) []
        (announced ps_name filename w)
      = (Return charstrings, announced ps_name filename w) ∧
    save tt1 = inr binary_data ∧
    getitem_head tt1 = inr h ∧
    open_error (out_name ps_name) = None ∧
    w' = {| globals := globals w;
            stdout := stdout w ++
              ["Generating " +:+ ps_name +:+ " from " +:+ source_file filename +:+ "...";
               "  -> Success: " +:+ out_name ps_name +:+ " written."];
            files := <[out_name ps_name :=
                         Type42_text ps_name filename h charstrings binary_data]>
                       (files w) |}.
Proof.
  intros (Hex & (tt0 & Hopen & Hsub) & Hrun).
  unfold process_font_entry in Hrun. fold (source_file filename) in Hrun.
  fold (out_name ps_name) in Hrun.
  apply bind_Return in Hrun as ([] & wa & Hprint & Hrun).
  assert (wa = announced ps_name filename w) as -> by (unfold print in Hprint; by simplify_eq).
  clear Hprint. rewrite Hex, Hopen in Hrun. cbn [negb] in Hrun.
  apply bind_Return in Hrun as (unicodes & w1 & [-> ->]%global_Return & Hrun).
  cbn [globals announced] in Hrun. rewrite Hsub in Hrun.
  apply bind_Return in Hrun as (tt1' & w1 & [[= <-] ->]%call_Return & Hrun).
  apply bind_Return in Hrun as (cmap & w1 & [Hcmap ->]%call_Return & Hrun).
  apply bind_Return in Hrun as (items & w1 & [-> ->]%global_Return & Hrun).
  apply bind_Return in Hrun as (charstrings & w1 & Hitems & Hrun).
  assert (w1 = announced ps_name filename w) as ->.
  { destruct cmap as [cm|].
    - by apply for_items_Return in Hitems as (-> & _).
    - by apply for_items_None in Hitems as (_ & _ & ->). }
  apply bind_Return in Hrun as (binary_data & w1 & [Hsave ->]%call_Return & Hrun).
  apply bind_Return in Hrun as (f & w1 & (Hopen_w & -> & ->)%open_w_Return & Hrun).
  pose proof (wrote_nil (out_name ps_name)
                (set_file (out_name ps_name) "" (announced ps_name filename w))) as Hacc.
  do 9 write_step Hrun Hacc.
  apply bind_Return in Hrun as (h & w1 & [Hhead ->]%call_Return & Hrun).
  do 3 write_step Hrun Hacc.
  apply bind_Return in Hrun as ([] & w1 & Hcs%for_charstrings_wrote & Hrun).
  pose proof (wrote_app _ _ _ _ _ _ Hacc Hcs) as Hacc'. clear Hacc Hcs.
  do 2 write_step Hrun Hacc'.
  apply bind_Return in Hrun as ([] & w2 & Hsf%while_offset_wrote & Hrun); [|done].
  pose proof (wrote_app _ _ _ _ _ _ Hacc' Hsf) as Hacc. clear Hacc' Hsf.
  do 2 write_step Hrun Hacc.
  specialize (Hacc _ (set_file_lookup _ _ _)). rewrite set_file_set_file in Hacc.
  unfold print in Hrun. simplify_eq.
  exists cmap, charstrings, binary_data, h. split_and!; try done.
  unfold set_file, announced. cbn [globals stdout files]. rewrite <- app_assoc.
  do 3 f_equal.
  unfold Type42_text, license_comment, FontBBox_line, sfnts_text.
  change (drop (Z.to_nat 0) binary_data) with binary_data.
  by rewrite <- !str_app_assoc.
Qed.

End Conversion.

(** ** Cutting into parts *)

Lemma blocks_of_nil (n : nat) : blocks_of n [].
Proof. intros i k Hi. by rewrite lookup_nil in Hi. Qed.

Lemma blocks_of_cons (n k : nat) (sizes : list nat) :
  (0 < k ≤ n)%nat → (sizes ≠ [] → k = n) → blocks_of n sizes →
  blocks_of n (k :: sizes).
Proof.
  intros Hk Hfull Hrest [|i] k' Hi; cbn in Hi.
  - simplify_eq. split; [done|]. intros Hlen. apply Hfull.
    destruct sizes; [cbn in Hlen; lia|done].
  - destruct (Hrest i k' Hi) as [? Hlast]. split; [done|].
    cbn. intros ?. apply Hlast. lia.
Qed.

Lemma list_chunks_nil {A : Type} (budget n : nat) : list_chunks budget n (@nil A) = [].
Proof. by destruct budget. Qed.

Lemma list_chunks_concat {A : Type} (budget n : nat) (l : list A) :
  (0 < n)%nat → (length l ≤ budget)%nat → concat (list_chunks budget n l) = l.
Proof.
  intros Hn. revert l. induction budget as [|budget IH]; intros l Hl.
  - destruct l; [done|cbn in Hl; lia].
  - destruct l as [|x l]; [done|]. cbn [list_chunks concat].
    rewrite IH; [apply take_drop|]. rewrite length_drop. cbn in *. lia.
Qed.

Lemma list_chunks_blocks {A : Type} (budget n : nat) (l : list A) :
  (0 < n)%nat → blocks_of n (length <$> list_chunks budget n l).
Proof.
  intros Hn. revert l. induction budget as [|budget IH]; intros l.
  - destruct l; apply blocks_of_nil.
  - destruct l as [|x l]; [apply blocks_of_nil|]. cbn [list_chunks fmap list_fmap].
    apply blocks_of_cons; [| |apply IH].
    + rewrite length_take. cbn. lia.
    + intros Hne. rewrite length_take.
      destruct (decide (n ≤ length (x :: l))%nat) as [|Hshort]; [lia|].
      rewrite drop_ge, list_chunks_nil in Hne by lia. done.
Qed.

Lemma str_chunks_nil (budget n : nat) : str_chunks budget n "" = [].
Proof. by destruct budget. Qed.

Lemma str_chunks_cons (budget n : nat) (c : ascii) (s : string) :
  str_chunks (S budget) n (String c s)
  = Str.take n (String c s) :: str_chunks budget n (Str.drop n (String c s)).
Proof. reflexivity. Qed.

Lemma str_chunks_cat (budget n : nat) (s : string) :
  (0 < n)%nat → (String.length s ≤ budget)%nat → Str.cat (str_chunks budget n s) = s.
Proof.
  intros Hn. revert s. induction budget as [|budget IH]; intros s Hs.
  - destruct s; [done|cbn in Hs; lia].
  - destruct s as [|c s']; [done|]. rewrite str_chunks_cons.
    change (Str.cat (?x :: ?l)) with (x +:+ Str.cat l).
    rewrite IH; [apply str_take_drop|]. rewrite str_length_drop.
    cbn in *. lia.
Qed.

Lemma str_chunks_blocks (budget n : nat) (s : string) :
  (0 < n)%nat → blocks_of n (String.length <$> str_chunks budget n s).
Proof.
  intros Hn. revert s. induction budget as [|budget IH]; intros s.
  - destruct s; apply blocks_of_nil.
  - destruct s as [|c s']; [apply blocks_of_nil|]. rewrite str_chunks_cons.
    cbn [fmap list_fmap].
    apply blocks_of_cons; [| |apply IH].
    + rewrite str_length_take. cbn. lia.
    + intros Hne. rewrite str_length_take.
      destruct (decide (n ≤ String.length (String c s'))%nat) as [|Hshort]; [lia|].
      rewrite str_drop_ge, str_chunks_nil in Hne by lia. done.
Qed.

Example list_chunks_ex :
  (λ part, Z.of_nat (length part)) <$>
    list_chunks (Z.to_nat 70000) (Z.to_nat CHUNK_SIZE)
      (replicate (Z.to_nat 70000) x00%byte)
  = [32768; 32768; 4464].
Proof. vm_compute. reflexivity. Qed.

(** One string of the array holds its chunk, in lines of 70 digits. *)
Lemma segment_text_sfnts_string (chunk : list byte) :
  sfnts_string chunk (segment_text chunk).
Proof.
  exists (str_chunks (String.length (Str.upper (Binascii.hexlify chunk))) 70
            (Str.upper (Binascii.hexlify chunk))).
  split_and!.
  - rewrite str_chunks_cat by lia. apply unhexlify_upper_hexlify.
  - apply str_chunks_blocks. lia.
  - done.
Qed.

(** ** The hex digits of the [sfnts] array *)

Lemma strip_layout_app (s1 s2 : string) :
  strip_layout (s1 +:+ s2) = strip_layout s1 +:+ strip_layout s2.
Proof.
  induction s1 as [|c s1 IH]; [done|].
  rewrite str_app_cons. cbn [strip_layout].
  destruct (is_layout c); [done|]. by rewrite IH, str_app_cons.
Qed.

Lemma upper_hex_not_layout (c : ascii) : is_upper_hex c = true → is_layout c = false.
Proof. destruct c as [[] [] [] [] [] [] [] []]; vm_compute; congruence. Qed.

Lemma strip_layout_upper_hex (s : string) :
  str_forallb is_upper_hex s = true → strip_layout s = s.
Proof.
  induction s as [|c s IH]; [done|]. cbn [str_forallb strip_layout].
  intros [Hc Hs]%andb_prop. by rewrite IH, upper_hex_not_layout.
Qed.

Lemma upper_hexlify_upper_hex (d : list byte) :
  str_forallb is_upper_hex (Str.upper (Binascii.hexlify d)) = true.
Proof.
  induction d as [|b d IH]; [done|].
  cbn [Binascii.hexlify Str.upper str_forallb]. rewrite IH.
  by destruct b; vm_compute.
Qed.

Lemma strip_layout_marks :
  strip_layout "      " = "" ∧ strip_layout LF = "" ∧
  strip_layout "    <" = "" ∧ strip_layout "    >" = "".
Proof. by vm_compute. Qed.

Lemma strip_layout_indented (ls : list string) :
  strip_layout (Str.cat (indented <$> ls)) = strip_layout (Str.cat ls).
Proof.
  destruct strip_layout_marks as (Hblank & HLF & _).
  induction ls as [|l ls IH]; [done|].
  cbn [fmap list_fmap]. change (Str.cat (?x :: ?l)) with (x +:+ Str.cat l).
  unfold indented at 1. rewrite !strip_layout_app, IH, Hblank, HLF.
  by rewrite str_app_nil_r.
Qed.

Lemma strip_layout_hex_lines (lines : list string) :
  strip_layout (hex_lines lines) = strip_layout (Str.cat lines).
Proof.
  destruct strip_layout_marks as (_ & HLF & _).
  destruct lines as [|l ls]; [done|]. cbn [hex_lines].
  change (Str.cat (?x :: ?l)) with (x +:+ Str.cat l).
  by rewrite !strip_layout_app, strip_layout_indented, HLF.
Qed.

Lemma strip_layout_segment_text (chunk : list byte) :
  strip_layout (segment_text chunk) = Str.upper (Binascii.hexlify chunk).
Proof.
  destruct strip_layout_marks as (_ & HLF & Hopen & Hclose).
  unfold segment_text. cbn zeta.
  rewrite !strip_layout_app, strip_layout_hex_lines, str_chunks_cat by lia.
  rewrite Hopen, Hclose, HLF.
  rewrite (strip_layout_upper_hex _ (upper_hexlify_upper_hex chunk)).
  by rewrite !str_app_nil_r.
Qed.

Lemma strip_layout_segments (chunks : list (list byte)) :
  strip_layout (Str.cat (segment_text <$> chunks))
  = Str.upper (Binascii.hexlify (concat chunks)).
Proof.
  induction chunks as [|chunk chunks IH]; [done|].
  cbn [fmap list_fmap concat]. change (Str.cat (?x :: ?l)) with (x +:+ Str.cat l).
  by rewrite strip_layout_app, IH, strip_layout_segment_text, hexlify_app, str_upper_app.
Qed.

Lemma strip_layout_sfnts_text (binary_data : list byte) :
  strip_layout (sfnts_text binary_data) = Str.upper (Binascii.hexlify binary_data).
Proof.
  unfold sfnts_text. rewrite strip_layout_segments.
  by rewrite list_chunks_concat by (unfold CHUNK_SIZE; lia).
Qed.

(** ** What a successful conversion writes *)

Section Output.
Context `{Platform}.

(** The file of a successful conversion, cut before the [sfnts] array. *)
Lemma converts_sfnts ps_name filename w tt1 w' :
  converts ps_name filename w tt1 w' →
  ∃ binary_data pre,
    save tt1 = inr binary_data ∧
    files w' !! out_name ps_name =
      Some (pre +:+ ("  /sfnts [" +:+ LF) +:+ sfnts_text binary_data +:+
            ("  ] def" +:+ LF) +:+
            ("/" +:+ ps_name +:+ " currentdict end definefont pop" +:+ LF)).
Proof.
  intros (cmap & cs & data & h & _ & _ & Hsave & _ & _ & ->)%converts_inv.
  exists data. eexists. split; [done|]. cbn [files]. rewrite lookup_insert_eq.
  f_equal. unfold Type42_text. rewrite !str_app_assoc. reflexivity.
Qed.

End Output.

(** ** The conversions of the demonstration machine *)

Lemma run_eta `{Platform} {A : Type} (m : M A) (w : World) (a : A) :
  (m w).1 = Return a → m w = (Return a, (m w).2).
Proof. destruct (m w) as [r w']. cbn. by intros ->. Defined.

Lemma demo_heros_converts :
  @converts (Demo.platform (Demo.machine (Some Demo.heros)))
    "TG-Heros" "texgyreheros-regular.ttf" Demo.w0 Demo.heros_subset
    (Demo.after (Demo.machine (Some Demo.heros))).
Proof.
  split_and!.
  - vm_compute. reflexivity.
  - exists Demo.heros. split; vm_compute; reflexivity.
  - apply (@run_eta (Demo.platform (Demo.machine (Some Demo.heros)))).
    vm_compute. reflexivity.
Defined.


Lemma demo_loaded : Loaded Demo.w0.
Proof. reflexivity. Defined.

(** ** The properties of the specification *)

Section Claims.
Context `{Platform}.

(** C1, as amended.  For every font name and file name, hence for every
    entry of [PS_TO_FILENAME]: when the source file is present, loads, and
    the conversion then returns normally (no later phase raises), the file
    [<ps_name>.ps] of the output directory has been written, and after the
    licence comment and the line [11 dict begin] it defines [/FontName] as
    exactly [ps_name]. *)
Theorem font_name_written ps_name filename w tt1 w' :
  converts ps_name filename w tt1 w' →
  ∃ rest,
    files w' !! os_path_join dirname ["output"; ps_name +:+ ".ps"] =
      Some (license_comment filename +:+
            ("11 dict begin" +:+ LF) +:+
            ("  /FontName /" +:+ ps_name +:+ " def" +:+ LF) +:+
            rest).
Proof.
  intros (cmap & cs & data & h & _ & _ & _ & _ & _ & ->)%converts_inv.
  eexists. cbn [files]. fold (out_name ps_name). rewrite lookup_insert_eq.
  reflexivity.
Qed.

(** C2.  After a successful conversion the output file ends with the
    [sfnts] array and the [definefont] line; what is left of the array body
    once the blanks, line feeds and string brackets are taken away decodes
    to exactly the bytes that saving the subsetted font gave, and all of it
    is upper-case hex digits. *)
Theorem sfnts_hex_roundtrip ps_name filename w tt1 w' :
  converts ps_name filename w tt1 w' →
  ∃ binary_data pre body,
    save tt1 = inr binary_data ∧
    files w' !! out_name ps_name =
      Some (pre +:+ ("  /sfnts [" +:+ LF) +:+ body +:+ ("  ] def" +:+ LF) +:+
            ("/" +:+ ps_name +:+ " currentdict end definefont pop" +:+ LF)) ∧
    Binascii.unhexlify (strip_layout body) = Some binary_data ∧
    str_forallb is_upper_hex (strip_layout body) = true.
Proof.
  intros (data & pre & Hsave & Hfile)%converts_sfnts.
  exists data, pre, (sfnts_text data). split_and!; [done..| |].
  - rewrite strip_layout_sfnts_text. apply unhexlify_upper_hexlify.
  - rewrite strip_layout_sfnts_text. apply upper_hexlify_upper_hex.
Qed.


(** C6.  After a successful conversion the [sfnts] array is a sequence of
    strings, one for each of the consecutive parts of the font data; every
    part has exactly 32768 bytes, except that the last may have fewer, and
    none is empty; the hex digits of a part are on lines of exactly 70
    digits, except that the last line may be shorter. *)
Theorem sfnts_chunking ps_name filename w tt1 w' :
  converts ps_name filename w tt1 w' →
  ∃ binary_data pre segments texts,
    save tt1 = inr binary_data ∧
    files w' !! out_name ps_name =
      Some (pre +:+ ("  /sfnts [" +:+ LF) +:+ Str.cat texts +:+
            ("  ] def" +:+ LF) +:+
            ("/" +:+ ps_name +:+ " currentdict end definefont pop" +:+ LF)) ∧
    concat segments = binary_data ∧
    blocks_of (Z.to_nat 32768) (length <$> segments) ∧
    Forall2 sfnts_string segments texts.
Proof.
  intros (data & pre & Hsave & Hfile)%converts_sfnts.
  exists data, pre, (list_chunks (length data) (Z.to_nat CHUNK_SIZE) data).
  eexists. split_and!; [done|exact Hfile| | |].
  - apply list_chunks_concat; [|done]. unfold CHUNK_SIZE. lia.
  - apply (list_chunks_blocks _ (Z.to_nat 32768)). lia.
  - apply Forall2_fmap_r, Forall_Forall2_diag, Forall_forall.
    intros chunk _. apply segment_text_sfnts_string.
Qed.

End Claims.

Lemma font_name_written_witness :
  ∃ rest,
    files (Demo.after (Demo.machine (Some Demo.heros)))
      !! "scripts/fonts/output/TG-Heros.ps" =
      Some (license_comment "texgyreheros-regular.ttf" +:+
            ("11 dict begin" +:+ LF) +:+
            ("  /FontName /" +:+ "TG-Heros" +:+ " def" +:+ LF) +:+
            rest).
Proof. exact (font_name_written _ _ _ _ _ demo_heros_converts). Defined.

Lemma sfnts_hex_roundtrip_witness :
  ∃ binary_data pre body,
    Demo.data Demo.heros = Some binary_data ∧
    files (Demo.after (Demo.machine (Some Demo.heros)))
      !! "scripts/fonts/output/TG-Heros.ps" =
      Some (pre +:+ ("  /sfnts [" +:+ LF) +:+ body +:+ ("  ] def" +:+ LF) +:+
            ("/" +:+ "TG-Heros" +:+ " currentdict end definefont pop" +:+ LF)) ∧
    Binascii.unhexlify (strip_layout body) = Some binary_data ∧
    str_forallb is_upper_hex (strip_layout body) = true.
Proof.
  destruct (sfnts_hex_roundtrip _ _ _ _ _ demo_heros_converts)
    as (data & pre & body & Hsave & Hrest).
  exists data, pre, body. split; [|exact Hrest].
  cbn in Hsave. by simplify_eq.
Defined.


Lemma sfnts_chunking_witness :
  ∃ binary_data pre segments texts,
    @save (Demo.platform (Demo.machine (Some Demo.heros))) Demo.heros_subset
      = inr binary_data ∧
    files (Demo.after (Demo.machine (Some Demo.heros)))
      !! "scripts/fonts/output/TG-Heros.ps" =
      Some (pre +:+ ("  /sfnts [" +:+ LF) +:+ Str.cat texts +:+
            ("  ] def" +:+ LF) +:+
            ("/" +:+ "TG-Heros" +:+ " currentdict end definefont pop" +:+ LF)) ∧
    concat segments = binary_data ∧
    blocks_of (Z.to_nat 32768) (length <$> segments) ∧
    Forall2 sfnts_string segments texts.
Proof. exact (sfnts_chunking _ _ _ _ _ demo_heros_converts). Defined.

(** C1 as stated fails where the output directory is missing: the entry
    [TG-Heros] is in the mapping, its source file is present and loads, and
    yet [open] raises, the exception leaves [process_font_entry], and there
    is no output file. *)
Lemma font_name_written_needs_success :
  let P := Demo.platform Demo.no_output_dir in
  ("TG-Heros", "texgyreheros-regular.ttf")
    ∈ Dict.items (PS_TO_FILENAME (globals Demo.w0)) ∧
  os_path_exists (source_file "texgyreheros-regular.ttf") = true ∧
  TTFont_open (source_file "texgyreheros-regular.ttf") = inr Demo.heros ∧
  (process_font_entry "TG-Heros" "texgyreheros-regular.ttf" Demo.w0).1
    = Raise "No such file or directory" ∧
  files (process_font_entry "TG-Heros" "texgyreheros-regular.ttf" Demo.w0).2
    !! out_name "TG-Heros" = None.
Proof.
  split_and!; [|vm_compute; reflexivity..].
  apply (bool_decide_unpack _). vm_compute. exact I.
Qed.

(** ** The [CharStrings] dictionary *)

Lemma charstrings_text_from (cs : list string) (k : nat) :
  charstrings_text cs (Z.of_nat k + 1)
  = Str.cat (imap (λ i c, "    " +:+ c +:+
                          (if (Z.of_nat (k + i) + 1) `mod` 4 =? 0 then LF else " ")) cs).
Proof.
  revert k. induction cs as [|c cs IH]; intros k; [done|].
  cbn [charstrings_text imap]. change (Str.cat (?x :: ?l)) with (x +:+ Str.cat l).
  replace (Z.of_nat k + 1 + 1) with (Z.of_nat (S k) + 1) by lia.
  rewrite IH, Nat.add_0_r, <- !str_app_assoc. do 4 f_equal.
  apply imap_ext. intros i x _. cbn. by replace (k + S i)%nat with (S (k + i)) by lia.
Qed.

Lemma charstrings_text_four_per_line (cs : list string) :
  charstrings_text cs 1 = four_per_line cs.
Proof. apply (charstrings_text_from cs 0). Qed.

Lemma STD_ENC_MAP_keys_NoDup : NoDup (Dict.keys (STD_ENC_MAP globals_at_load)).
Proof. apply (bool_decide_unpack _). vm_compute. exact I. Qed.

Lemma STD_ENC_MAP_no_notdef : ".notdef" ∉ Dict.keys (STD_ENC_MAP globals_at_load).
Proof. apply (bool_decide_unpack _). vm_compute. exact I. Qed.

Lemma STD_ENC_MAP_shared_code_points :
  let items := Dict.items (STD_ENC_MAP globals_at_load) in
  ("quoteright", 0x27) ∈ items ∧ ("quotesingle", 0x27) ∈ items ∧
  ("quoteleft", 0x60) ∈ items ∧ ("grave", 0x60) ∈ items.
Proof. split_and!; apply (bool_decide_unpack _); vm_compute; exact I. Qed.


Section Defs.
Context `{Platform}.

Lemma def_of_Some tt1 cm item d :
  def_of tt1 cm item = Some d →
  d.1 = item.1 ∧ ∃ g, cm !! item.2 = Some g ∧ getGlyphID tt1 g = inr d.2.
Proof.
  unfold def_of. destruct (cm !! item.2) as [g|]; [|done].
  destruct (getGlyphID tt1 g) as [|gid] eqn:Hg; [done|].
  intros [= <-]. eauto.
Qed.

Lemma defs_elem_of tt1 cm (items : list (string * Z)) d :
  d ∈ omap (def_of tt1 cm) items →
  ∃ uni g, (d.1, uni) ∈ items ∧ cm !! uni = Some g ∧ getGlyphID tt1 g = inr d.2.
Proof.
  intros ([name uni] & Hin & Hd)%list_elem_of_omap.
  apply def_of_Some in Hd as (Hname & g & Hg & Hgid). cbn in *. subst name.
  eauto.
Qed.


Lemma defs_filter_other tt1 cm (items : list (string * Z)) name :
  name ∉ items.*1 →
  filter (λ d, d.1 = name) (omap (def_of tt1 cm) items) = [].
Proof.
  induction items as [|[name' uni'] items IH]; intros Hname; [done|].
  cbn in Hname. apply not_elem_of_cons in Hname as [Hne Hname].
  cbn [omap list_omap].
  destruct (def_of tt1 cm (name', uni')) as [d|] eqn:Hd; [|by apply IH].
  apply def_of_Some in Hd as (Hd & _). cbn in Hd.
  rewrite filter_cons_False by congruence. by apply IH.
Qed.

(** A name the code point of which the cmap has gets exactly one entry,
    with the glyph ID of the glyph that the cmap gives. *)
Lemma defs_filter_present tt1 cm (items : list (string * Z)) name uni g gid :
  NoDup items.*1 → (name, uni) ∈ items →
  cm !! uni = Some g → getGlyphID tt1 g = inr gid →
  filter (λ d, d.1 = name) (omap (def_of tt1 cm) items) = [(name, gid)].
Proof.
  intros Hnd Hin Hg Hgid.
  induction items as [|[name' uni'] items IH]; [by apply elem_of_nil in Hin|].
  cbn in Hnd. apply NoDup_cons in Hnd as [Hname' Hnd].
  cbn [omap list_omap].
  apply elem_of_cons in Hin as [[= <- <-]|Hin].
  - unfold def_of at 1. cbn [fst snd]. rewrite Hg, Hgid.
    rewrite filter_cons_True by done. by rewrite defs_filter_other.
  - assert (name' ≠ name) as Hne.
    { intros ->. apply Hname'. apply list_elem_of_fmap. by exists (name, uni). }
    destruct (def_of tt1 cm (name', uni')) as [d|] eqn:Hd; [|by apply IH].
    apply def_of_Some in Hd as (Hd & _). cbn in Hd.
    rewrite filter_cons_False by congruence. by apply IH.
Qed.

(** The [CharStrings] dictionary of a successful conversion: its entries
    are those of the code points that the cmap has, in table order. *)
Lemma converts_CharStrings ps_name filename w tt1 w' :
  converts ps_name filename w tt1 w' →
  ∃ cmap defs pre rest,
    getBestCmap tt1 = inr cmap ∧
    files w' !! out_name ps_name =
      Some (pre +:+ CharStrings_dict (Z.of_nat (length defs) + 5) defs +:+ rest) ∧
    match cmap with
    | Some cm =>
        defs = omap (def_of tt1 cm) (Dict.items (STD_ENC_MAP (globals w))) ∧
        ∀ item g, item ∈ Dict.items (STD_ENC_MAP (globals w)) →
                  cm !! item.2 = Some g → ∃ gid, getGlyphID tt1 g = inr gid
    | None => defs = [] ∧ Dict.items (STD_ENC_MAP (globals w)) = []
    end.
Proof.
  intros (cmap & cs & data & h & Hcmap & Hitems & _ & _ & _ & ->)%converts_inv.
  exists cmap.
  assert (∃ defs, cs = entry <$> defs ∧
            match cmap with
            | Some cm =>
                defs = omap (def_of tt1 cm) (Dict.items (STD_ENC_MAP (globals w))) ∧
                ∀ item g, item ∈ Dict.items (STD_ENC_MAP (globals w)) →
                          cm !! item.2 = Some g → ∃ gid, getGlyphID tt1 g = inr gid
            | None => defs = [] ∧ Dict.items (STD_ENC_MAP (globals w)) = []
            end) as (defs & -> & Hdefs).
  { destruct cmap as [cm|].
    - apply for_items_Return in Hitems as (_ & -> & Hall). eauto.
    - apply for_items_None in Hitems as (-> & -> & _). by exists []. }
  exists defs,
    (license_comment filename +:+ ("11 dict begin" +:+ LF) +:+
     ("  /FontName /" +:+ ps_name +:+ " def" +:+ LF) +:+
     ("  /FontType 42 def" +:+ LF) +:+
     ("  /FontMatrix [1 0 0 1 0 0] def" +:+ LF) +:+
     ("  /PaintType 0 def" +:+ LF) +:+
     ("  /Encoding StandardEncoding def" +:+ LF) +:+
     FontBBox_line h),
    (("  /sfnts [" +:+ LF) +:+ sfnts_text data +:+ ("  ] def" +:+ LF) +:+
     ("/" +:+ ps_name +:+ " currentdict end definefont pop" +:+ LF)).
  split_and!; [done| |done].
  cbn [files]. rewrite lookup_insert_eq. f_equal.
  unfold Type42_text, CharStrings_dict.
  rewrite charstrings_text_four_per_line, length_fmap.
  by rewrite <- !str_app_assoc.
Qed.

End Defs.

Section CharStrings_claims.
Context `{Platform}.

(** In a loaded world the table is not empty, so a successful conversion
    had a cmap to look the code points up in. *)
Lemma converts_CharStrings_loaded ps_name filename w tt1 w' :
  Loaded w → converts ps_name filename w tt1 w' →
  ∃ cm pre rest,
    getBestCmap tt1 = inr (Some cm) ∧
    files w' !! out_name ps_name =
      Some (pre +:+
            CharStrings_dict
              (Z.of_nat (length (omap (def_of tt1 cm)
                                   (Dict.items (STD_ENC_MAP (globals w))))) + 5)
              (omap (def_of tt1 cm) (Dict.items (STD_ENC_MAP (globals w)))) +:+
            rest) ∧
    NoDup (Dict.items (STD_ENC_MAP (globals w))).*1 ∧
    ∀ item g, item ∈ Dict.items (STD_ENC_MAP (globals w)) →
              cm !! item.2 = Some g → ∃ gid, getGlyphID tt1 g = inr gid.
Proof.
  intros Hload (cmap & defs & pre & rest & Hcmap & Hfile & Hdefs)%converts_CharStrings.
  destruct cmap as [cm|].
  - destruct Hdefs as [-> Hall]. exists cm, pre, rest. split_and!; try done.
    rewrite Hload. apply STD_ENC_MAP_keys_NoDup.
  - destruct Hdefs as [_ Hnil]. by rewrite Hload in Hnil.
Qed.

(** C3.  After a successful conversion, every glyph name of the encoding
    table the code point of which is in the best cmap of the subsetted font
    has exactly one definition in the [CharStrings] dictionary of the
    output, and it is defined as the glyph ID that the subsetted font gives
    for the glyph the cmap maps the code point to. *)
Theorem charstrings_defined_once ps_name filename w tt1 w' :
  Loaded w → converts ps_name filename w tt1 w' →
  ∃ cm defs pre rest,
    getBestCmap tt1 = inr (Some cm) ∧
    files w' !! out_name ps_name =
      Some (pre +:+ CharStrings_dict (Z.of_nat (length defs) + 5) defs +:+ rest) ∧
    ∀ name uni glyph_name,
      (name, uni) ∈ Dict.items (STD_ENC_MAP (globals w)) →
      cm !! uni = Some glyph_name →
      ∃ gid, getGlyphID tt1 glyph_name = inr gid ∧
             filter (λ d, d.1 = name) defs = [(name, gid)].
Proof.
  intros Hload Hconv.
  destruct (converts_CharStrings_loaded _ _ _ _ _ Hload Hconv)
    as (cm & pre & rest & Hcmap & Hfile & Hnd & Hall).
  exists cm. do 3 eexists. split_and!; [done|exact Hfile|].
  intros name uni g Hin Hg. destruct (Hall _ _ Hin Hg) as [gid Hgid].
  exists gid. split; [done|]. by eapply defs_filter_present.
Qed.


(** C9.  After a successful conversion the [CharStrings] dictionary of the
    output starts with the definition of [.notdef] as glyph 0, which is not
    a name of the encoding table; the definitions that follow are all of
    names of the table; and the capacity the dictionary declares is their
    number plus 5, that is 4 more than the number of all the definitions. *)
Theorem charstrings_capacity ps_name filename w tt1 w' :
  Loaded w → converts ps_name filename w tt1 w' →
  ∃ defs pre rest,
    files w' !! out_name ps_name =
      Some (pre +:+
            ("  /CharStrings " +:+ Str.of_int (Z.of_nat (length defs) + 5) +:+
             " dict dup begin" +:+ LF) +:+
            ("    /.notdef 0 def" +:+ LF) +:+
            four_per_line (entry <$> defs) +:+
            (LF +:+ "  end def" +:+ LF) +:+
            rest) ∧
    (∀ d, d ∈ defs → d.1 ∈ Dict.keys (STD_ENC_MAP (globals w))) ∧
    (".notdef" ∉ Dict.keys (STD_ENC_MAP (globals w))) ∧
    Z.of_nat (length defs) + 5 = Z.of_nat (length ((".notdef", 0) :: defs)) + 4.
Proof.
  intros Hload Hconv.
  destruct (converts_CharStrings_loaded _ _ _ _ _ Hload Hconv)
    as (cm & pre & rest & Hcmap & Hfile & Hnd & Hall).
  eexists _, pre, rest. split_and!.
  - rewrite Hfile. f_equal. unfold CharStrings_dict. by rewrite <- !str_app_assoc.
  - intros d (uni & g & Hin & _)%defs_elem_of.
    apply list_elem_of_fmap. by exists (d.1, uni).
  - rewrite Hload. apply STD_ENC_MAP_no_notdef.
  - cbn [length]. lia.
Qed.

(** C10.  [quoteright] and [quotesingle] share the code point U+0027, and
    [quoteleft] and [grave] share U+0060.  After a successful conversion,
    when the cmap has such a code point, both names are defined, at two
    places of the [CharStrings] dictionary of the output, as the same glyph
    ID. *)
Theorem shared_code_points_both_defined ps_name filename w tt1 w' :
  Loaded w → converts ps_name filename w tt1 w' →
  ∃ cm defs pre rest,
    getBestCmap tt1 = inr (Some cm) ∧
    files w' !! out_name ps_name =
      Some (pre +:+ CharStrings_dict (Z.of_nat (length defs) + 5) defs +:+ rest) ∧
    (("quoteright", 0x27) ∈ Dict.items (STD_ENC_MAP (globals w)) ∧
     ("quotesingle", 0x27) ∈ Dict.items (STD_ENC_MAP (globals w)) ∧
     ("quoteleft", 0x60) ∈ Dict.items (STD_ENC_MAP (globals w)) ∧
     ("grave", 0x60) ∈ Dict.items (STD_ENC_MAP (globals w))) ∧
    (is_Some (cm !! 0x27) →
     ∃ gid i j, i ≠ j ∧ defs !! i = Some ("quoteright", gid) ∧
                defs !! j = Some ("quotesingle", gid)) ∧
    (is_Some (cm !! 0x60) →
     ∃ gid i j, i ≠ j ∧ defs !! i = Some ("quoteleft", gid) ∧
                defs !! j = Some ("grave", gid)).
Proof.
  intros Hload Hconv.
  destruct (converts_CharStrings_loaded _ _ _ _ _ Hload Hconv)
    as (cm & pre & rest & Hcmap & Hfile & Hnd & Hall).
  assert (∀ name1 name2 uni,
            name1 ≠ name2 →
            (name1, uni) ∈ Dict.items (STD_ENC_MAP (globals w)) →
            (name2, uni) ∈ Dict.items (STD_ENC_MAP (globals w)) →
            is_Some (cm !! uni) →
            ∃ gid i j, i ≠ j ∧
              omap (def_of tt1 cm) (Dict.items (STD_ENC_MAP (globals w))) !! i
                = Some (name1, gid) ∧
              omap (def_of tt1 cm) (Dict.items (STD_ENC_MAP (globals w))) !! j
                = Some (name2, gid)) as Hboth.
  { intros name1 name2 uni Hne Hin1 Hin2 [g Hg].
    destruct (Hall _ _ Hin1 Hg) as [gid Hgid]. exists gid.
    assert (∀ name, (name, uni) ∈ Dict.items (STD_ENC_MAP (globals w)) →
              ∃ i, omap (def_of tt1 cm) (Dict.items (STD_ENC_MAP (globals w))) !! i
                   = Some (name, gid)) as Hpos.
    { intros name Hin. apply list_elem_of_lookup, list_elem_of_omap.
      exists (name, uni). split; [done|]. unfold def_of. cbn. by rewrite Hg, Hgid. }
    destruct (Hpos _ Hin1) as [i Hi], (Hpos _ Hin2) as [j Hj].
    exists i, j. split_and!; [|done..]. intros ->. congruence. }
  pose proof STD_ENC_MAP_shared_code_points as Htable. cbn zeta in Htable.
  rewrite <- Hload in Htable. destruct Htable as (Hqr & Hqs & Hql & Hgr).
  exists cm. do 3 eexists. split_and!; [done|exact Hfile|done..| |].
  - by apply Hboth.
  - by apply Hboth.
Qed.

End CharStrings_claims.

Lemma charstrings_defined_once_witness :
  ∃ defs pre rest gid,
    files (Demo.after (Demo.machine (Some Demo.heros)))
      !! "scripts/fonts/output/TG-Heros.ps" =
      Some (pre +:+ CharStrings_dict (Z.of_nat (length defs) + 5) defs +:+ rest) ∧
    @getGlyphID (Demo.platform (Demo.machine (Some Demo.heros))) Demo.heros_subset "A"
      = inr gid ∧
    filter (λ d, d.1 = "A") defs = [("A", gid)].
Proof.
  destruct (charstrings_defined_once _ _ _ _ _ demo_loaded demo_heros_converts)
    as (cm & defs & pre & rest & Hcmap & Hfile & Hall).
  cbn in Hcmap. injection Hcmap as <-.
  destruct (Hall "A" 65 "A") as (gid & Hgid & Hdefs).
  - apply (bool_decide_unpack _). vm_compute. exact I.
  - vm_compute. reflexivity.
  - exists defs, pre, rest, gid. split_and!; [exact Hfile|exact Hgid|exact Hdefs].
Defined.


Lemma charstrings_capacity_witness :
  ∃ defs pre rest,
    files (Demo.after (Demo.machine (Some Demo.heros)))
      !! "scripts/fonts/output/TG-Heros.ps" =
      Some (pre +:+
            ("  /CharStrings " +:+ Str.of_int (Z.of_nat (length defs) + 5) +:+
             " dict dup begin" +:+ LF) +:+
            ("    /.notdef 0 def" +:+ LF) +:+
            four_per_line (entry <$> defs) +:+
            (LF +:+ "  end def" +:+ LF) +:+
            rest) ∧
    (∀ d, d ∈ defs → d.1 ∈ Dict.keys (STD_ENC_MAP (globals Demo.w0))) ∧
    (".notdef" ∉ Dict.keys (STD_ENC_MAP (globals Demo.w0))) ∧
    Z.of_nat (length defs) + 5 = Z.of_nat (length ((".notdef", 0) :: defs)) + 4.
Proof. exact (charstrings_capacity _ _ _ _ _ demo_loaded demo_heros_converts). Defined.

Lemma shared_code_points_both_defined_witness :
  ∃ defs pre rest gid i j,
    files (Demo.after (Demo.machine (Some Demo.heros)))
      !! "scripts/fonts/output/TG-Heros.ps" =
      Some (pre +:+ CharStrings_dict (Z.of_nat (length defs) + 5) defs +:+ rest) ∧
    i ≠ j ∧ defs !! i = Some ("quoteright", gid) ∧
    defs !! j = Some ("quotesingle", gid).
Proof.
  destruct (shared_code_points_both_defined _ _ _ _ _ demo_loaded demo_heros_converts)
    as (cm & defs & pre & rest & Hcmap & Hfile & _ & Hquote & _).
  cbn in Hcmap. injection Hcmap as <-.
  destruct Hquote as (gid & i & j & Hij & Hi & Hj).
  - exists "quotesingle". vm_compute. reflexivity.
  - exists defs, pre, rest, gid, i, j. split_and!; [exact Hfile|exact Hij|exact Hi|exact Hj].
Defined.

(** ** The module globals are left alone *)

Create HintDb frame.

Section Frame.
Context `{Platform}.

Lemma keeps_ret {A : Type} (a : A) : keeps_globals (mret a).
Proof. by intros w. Qed.

Lemma keeps_raise {A : Type} (e : Exn) : keeps_globals (raise (A := A) e).
Proof. by intros w. Qed.

Lemma keeps_diverge {A : Type} : keeps_globals (diverge (A := A)).
Proof. by intros w. Qed.

Lemma keeps_bind {A B : Type} (m : M A) (k : A → M B) :
  keeps_globals m → (∀ a, keeps_globals (k a)) → keeps_globals (m ≫= k).
Proof.
  intros Hm Hk w. specialize (Hm w). unfold mbind, M_bind.
  destruct (m w) as [[a|e|] w1]; cbn in *; [|done..].
  by rewrite Hk.
Qed.

Lemma keeps_call {A : Type} (r : Exn + A) : keeps_globals (call r).
Proof. by destruct r. Qed.

Lemma keeps_global {A : Type} (name : Globals → A) : keeps_globals (global name).
Proof. by intros w. Qed.

Lemma keeps_print (s : string) : keeps_globals (print s).
Proof. by intros w. Qed.

Lemma keeps_open_w (path : string) : keeps_globals (open_w path).
Proof. intros w. unfold open_w. by destruct (open_error path). Qed.

Lemma keeps_write (f s : string) : keeps_globals (write f s).
Proof. intros w. unfold write. by destruct (write_error _ _ _). Qed.

Lemma keeps_if {A : Type} (b : bool) (m1 m2 : M A) :
  keeps_globals m1 → keeps_globals m2 → keeps_globals (if b then m1 else m2).
Proof. by destruct b. Qed.

Hint Resolve keeps_ret keeps_raise keeps_diverge keeps_bind keeps_call
  keeps_global keeps_print keeps_open_w keeps_write keeps_if : frame.

Lemma keeps_for_items tt1 cmap items charstrings :
  keeps_globals (for_items tt1 cmap items charstrings).
Proof.
  revert charstrings. induction items as [|[name uni] items IH]; intros cs; cbn.
  - auto with frame.
  - destruct cmap as [cm|]; [|auto with frame].
    destruct (cm !! uni); auto with frame.
Qed.

Lemma keeps_for_charstrings f charstrings c_count :
  keeps_globals (for_charstrings f charstrings c_count).
Proof.
  revert c_count. induction charstrings as [|c cs IH]; intros c_count; cbn;
    auto 6 with frame.
Qed.

Lemma keeps_while_hex_pos budget f hex_str hex_pos :
  keeps_globals (while_hex_pos budget f hex_str hex_pos).
Proof.
  revert hex_pos. induction budget as [|budget IH]; intros hex_pos; cbn;
    auto 6 with frame.
Qed.

Lemma keeps_while_offset budget f binary_data offset :
  keeps_globals (while_offset budget f binary_data offset).
Proof.
  pose proof keeps_while_hex_pos.
  revert offset. induction budget as [|budget IH]; intros offset; cbn [while_offset];
    auto 8 with frame.
Qed.

Lemma keeps_process_font_entry ps_name filename :
  keeps_globals (process_font_entry ps_name filename).
Proof.
  pose proof keeps_for_items. pose proof keeps_for_charstrings.
  pose proof keeps_while_offset.
  unfold process_font_entry. cbn zeta.
  apply keeps_bind; [auto with frame|]. intros _.
  apply keeps_if; [auto with frame|].
  destruct (TTFont_open _); [auto with frame|].
  repeat (first [apply keeps_bind; [by auto with frame|]; intros ?
                |by auto with frame]).
Qed.

Lemma keeps_for_entries items : keeps_globals (for_entries items).
Proof.
  pose proof keeps_process_font_entry.
  induction items as [|[ps_name filename] items IH]; cbn; auto with frame.
Qed.

Lemma keeps_main : keeps_globals main.
Proof.
  pose proof keeps_for_entries. unfold main.
  repeat (first [apply keeps_bind; [by auto with frame|]; intros ?
                |by auto with frame]).
Qed.

(** C8.  No call of the conversion routine and no run of the batch driver
    changes the two module dictionaries: whatever the outcome, they are the
    same after as before; in particular they stay what the module body made
    them. *)
Theorem tables_never_mutated ps_name filename w :
  let after_call := (process_font_entry ps_name filename w).2 in
  let after_batch := (main w).2 in
  (PS_TO_FILENAME (globals after_call) = PS_TO_FILENAME (globals w) ∧
   STD_ENC_MAP (globals after_call) = STD_ENC_MAP (globals w)) ∧
  (PS_TO_FILENAME (globals after_batch) = PS_TO_FILENAME (globals w) ∧
   STD_ENC_MAP (globals after_batch) = STD_ENC_MAP (globals w)) ∧
  (Loaded w → Loaded after_call ∧ Loaded after_batch).
Proof.
  cbn zeta. unfold Loaded.
  rewrite (keeps_process_font_entry ps_name filename w), (keeps_main w).
  auto.
Qed.

End Frame.

(** ** The loops end within their budget *)

Section Termination.
Context `{Platform}.

Lemma terminates_ret {A : Type} (a : A) : terminates (mret a).
Proof. by intros w. Qed.

Lemma terminates_bind {A B : Type} (m : M A) (k : A → M B) :
  terminates m → (∀ a, terminates (k a)) → terminates (m ≫= k).
Proof.
  intros Hm Hk w. specialize (Hm w). unfold mbind, M_bind.
  destruct (m w) as [[a|e|] w1]; cbn in *; [apply Hk|done..].
Qed.

Lemma terminates_call {A : Type} (r : Exn + A) : terminates (call r).
Proof. by destruct r. Qed.

Lemma terminates_global {A : Type} (name : Globals → A) : terminates (global name).
Proof. by intros w. Qed.

Lemma terminates_print (s : string) : terminates (print s).
Proof. by intros w. Qed.

Lemma terminates_open_w (path : string) : terminates (open_w path).
Proof. intros w. unfold open_w. by destruct (open_error path). Qed.

Lemma terminates_write (f s : string) : terminates (write f s).
Proof. intros w. unfold write. by destruct (write_error _ _ _). Qed.

Lemma terminates_for_items tt1 cmap items charstrings :
  terminates (for_items tt1 cmap items charstrings).
Proof.
  revert charstrings. induction items as [|[name uni] items IH]; intros cs; cbn.
  - apply terminates_ret.
  - destruct cmap as [cm|]; [|by intros w].
    destruct (cm !! uni); [|apply IH].
    apply terminates_bind; [apply terminates_call|]. intros gid. apply IH.
Qed.

Lemma terminates_for_charstrings f charstrings c_count :
  terminates (for_charstrings f charstrings c_count).
Proof.
  revert c_count. induction charstrings as [|c cs IH]; intros c_count; cbn.
  - apply terminates_ret.
  - apply terminates_bind; [apply terminates_write|]. intros _.
    apply terminates_bind; [destruct (_ =? _); apply terminates_write|].
    intros _. apply IH.
Qed.

(** A budget of one step for each character that is left is enough. *)
Lemma terminates_while_hex_pos budget f hex_str hex_pos :
  0 ≤ hex_pos → Str.len hex_str - hex_pos ≤ Z.of_nat budget →
  terminates (while_hex_pos budget f hex_str hex_pos).
Proof.
  revert hex_pos. induction budget as [|budget IH]; intros hex_pos Hpos Hbudget;
    cbn [while_hex_pos];
    (destruct (Z.ltb_spec hex_pos (Str.len hex_str)); [|apply terminates_ret]).
  - lia.
  - apply terminates_bind; [destruct (_ =? _); apply terminates_write|].
    intros _. apply IH; lia.
Qed.

(** A budget of one step for each byte that is left is enough. *)
Lemma terminates_while_offset budget f binary_data offset :
  0 ≤ offset → Z.of_nat (length binary_data) - offset ≤ Z.of_nat budget →
  terminates (while_offset budget f binary_data offset).
Proof.
  revert offset. induction budget as [|budget IH]; intros offset Hpos Hbudget;
    cbn [while_offset];
    (destruct (Z.ltb_spec offset (Z.of_nat (length binary_data)));
       [|apply terminates_ret]).
  - lia.
  - apply terminates_bind; [apply terminates_write|]. intros _.
    apply terminates_bind.
    { apply terminates_while_hex_pos; unfold Str.len; lia. }
    intros _. apply terminates_bind; [apply terminates_write|]. intros _.
    apply IH; unfold CHUNK_SIZE; lia.
Qed.

(** The conversion routine and the batch driver always end: with the
    budgets they give their loops, the outcome is a return or a raise. *)
Lemma terminates_process_font_entry ps_name filename :
  terminates (process_font_entry ps_name filename).
Proof.
  unfold process_font_entry. cbn zeta.
  apply terminates_bind; [apply terminates_print|]. intros _.
  destruct (negb _); [apply terminates_print|].
  destruct (TTFont_open _); [apply terminates_print|].
  repeat (first
    [ apply terminates_print
    | apply terminates_bind;
      [ first [ apply terminates_write | apply terminates_call
              | apply terminates_global | apply terminates_open_w
              | apply terminates_for_items | apply terminates_for_charstrings
              | apply terminates_while_offset; lia ]
      | intros ? ] ]).
Qed.

Lemma terminates_for_entries items : terminates (for_entries items).
Proof.
  induction items as [|[ps_name filename] items IH]; cbn.
  - apply terminates_ret.
  - apply terminates_bind; [apply terminates_process_font_entry|]. by intros _.
Qed.

Lemma terminates_main : terminates main.
Proof.
  unfold main.
  apply terminates_bind; [apply terminates_global|]. intros n.
  apply terminates_bind; [apply terminates_print|]. intros _.
  apply terminates_bind; [apply terminates_global|]. intros items.
  apply terminates_bind; [apply terminates_for_entries|]. intros _.
  apply terminates_print.
Qed.

End Termination.

(** ** Failures *)

Section Failures.
Context `{Platform}.


End Failures.


(** ** Conversions do succeed *)

Section Success.
Context `{Platform}.





Section Writes.
Variable f : string.
Hypothesis write_ok : ∀ written s, write_error f written s = None.





End Writes.


End Success.

(** * Further properties of the script *)

(** ** What a call leaves alone *)

Section Preserving.
Context `{Platform} {B : Type} (obs : World → B).

Lemma preserves_ret {A : Type} (a : A) : preserves obs (mret a).
Proof. by intros w. Qed.

Lemma preserves_raise {A : Type} (e : Exn) : preserves obs (raise (A := A) e).
Proof. by intros w. Qed.

Lemma preserves_diverge {A : Type} : preserves obs (diverge (A := A)).
Proof. by intros w. Qed.

Lemma preserves_bind {A C : Type} (m : M A) (k : A → M C) :
  preserves obs m → (∀ a, preserves obs (k a)) → preserves obs (m ≫= k).
Proof.
  intros Hm Hk w. specialize (Hm w). unfold mbind, M_bind.
  destruct (m w) as [[a|e|] w1]; cbn in *; [|done..].
  by rewrite Hk.
Qed.

Lemma preserves_call {A : Type} (r : Exn + A) : preserves obs (call r).
Proof. by destruct r. Qed.

Lemma preserves_global {A : Type} (name : Globals → A) : preserves obs (global name).
Proof. by intros w. Qed.

Lemma preserves_for_items tt1 cmap items charstrings :
  preserves obs (for_items tt1 cmap items charstrings).
Proof.
  revert charstrings. induction items as [|[name uni] items IH]; intros cs; cbn.
  - apply preserves_ret.
  - destruct cmap as [cm|]; [|apply preserves_raise].
    destruct (cm !! uni); [|apply IH].
    apply preserves_bind; [apply preserves_call|]. intros gid. apply IH.
Qed.

Lemma preserves_print (s : string) : ignores_stdout obs → preserves obs (print s).
Proof. intros Hobs [g o fs]. apply Hobs. Qed.

Section File.
Variable f : string.
Hypothesis obs_file : ignores_file f obs.

Lemma preserves_set_file t w : obs (set_file f t w) = obs w.
Proof. destruct w as [g o fs]. apply obs_file. Qed.

Lemma preserves_open_w : preserves obs (open_w f).
Proof.
  intros w. unfold open_w. destruct (open_error f); [done|].
  apply preserves_set_file.
Qed.

Lemma preserves_open_w_bind {C : Type} (k : string → M C) :
  preserves obs (k f) → preserves obs (open_w f ≫= k).
Proof.
  intros Hk w. unfold mbind, M_bind, open_w.
  destruct (open_error f); [done|]. by rewrite Hk, preserves_set_file.
Qed.

Lemma preserves_write (s : string) : preserves obs (write f s).
Proof.
  intros w. unfold write. destruct (write_error _ _ _); [done|].
  apply preserves_set_file.
Qed.

Lemma preserves_for_charstrings charstrings c_count :
  preserves obs (for_charstrings f charstrings c_count).
Proof.
  revert c_count. induction charstrings as [|c cs IH]; intros c_count; cbn.
  - apply preserves_ret.
  - apply preserves_bind; [apply preserves_write|]. intros _.
    apply preserves_bind; [destruct (_ =? _); apply preserves_write|].
    intros _. apply IH.
Qed.

Lemma preserves_while_hex_pos budget hex_str hex_pos :
  preserves obs (while_hex_pos budget f hex_str hex_pos).
Proof.
  revert hex_pos. induction budget as [|budget IH]; intros hex_pos;
    cbn [while_hex_pos];
    (destruct (hex_pos <? Str.len hex_str); [|apply preserves_ret]).
  - apply preserves_diverge.
  - apply preserves_bind; [destruct (_ =? _); apply preserves_write|].
    intros _. apply IH.
Qed.

Lemma preserves_while_offset budget binary_data offset :
  preserves obs (while_offset budget f binary_data offset).
Proof.
  revert offset. induction budget as [|budget IH]; intros offset;
    cbn [while_offset];
    (destruct (offset <? _); [|apply preserves_ret]).
  - apply preserves_diverge.
  - apply preserves_bind; [apply preserves_write|]. intros _.
    apply preserves_bind; [apply preserves_while_hex_pos|]. intros _.
    apply preserves_bind; [apply preserves_write|]. intros _.
    apply IH.
Qed.

End File.

(** An observation that sees neither the output nor the file that a call
    writes is not changed by the call. *)
Lemma preserves_process_font_entry ps_name filename :
  ignores_stdout obs → ignores_file (out_name ps_name) obs →
  preserves obs (process_font_entry ps_name filename).
Proof.
  intros Hout Hfile. unfold process_font_entry. fold (out_name ps_name). cbn zeta.
  apply preserves_bind; [by apply preserves_print|]. intros _.
  destruct (negb _); [by apply preserves_print|].
  destruct (TTFont_open _); [by apply preserves_print|].
  do 6 (apply preserves_bind;
          [first [apply preserves_global | apply preserves_call
                 | apply preserves_for_items]|]; intros ?).
  apply preserves_open_w_bind; [done|].
  repeat (first
    [ by apply preserves_print
    | apply preserves_bind;
      [ first [ by apply preserves_write | apply preserves_call
              | by apply preserves_for_charstrings
              | by apply preserves_while_offset ]
      | intros ? ] ]).
Qed.

Lemma preserves_for_entries items :
  ignores_stdout obs →
  (∀ entry, entry ∈ items → ignores_file (out_name entry.1) obs) →
  preserves obs (for_entries items).
Proof.
  intros Hout. induction items as [|[ps_name filename] items IH]; intros Hfiles; cbn.
  - apply preserves_ret.
  - apply preserves_bind.
    + apply preserves_process_font_entry; [done|]. apply (Hfiles (ps_name, filename)).
      by left.
    + intros _. apply IH. intros entry Hin. apply Hfiles. by right.
Qed.

End Preserving.

(** ** The result of a call, in full *)

Section Whole_result.
Context `{Platform}.

(** The loop over the encoding table neither reads nor changes the world. *)
Lemma for_items_pure tt1 cmap items acc w r w' :
  for_items tt1 cmap items acc w = (r, w') →
  w' = w ∧ ∀ w2, for_items tt1 cmap items acc w2 = (r, w2).
Proof.
  revert acc. induction items as [|[name uni] items IH]; intros acc; cbn [for_items].
  - unfold mret, M_ret. intros [= <- <-]. done.
  - destruct cmap as [cm|]; [|unfold raise; intros [= <- <-]; done].
    destruct (cm !! uni) as [g|]; [|apply IH].
    destruct (getGlyphID tt1 g) as [e|gid]; cbn [call].
    + unfold mbind, M_bind, raise. intros [= <- <-]. done.
    + unfold mbind, M_bind, mret, M_ret. apply IH.
Qed.


(** X2.  Whatever its outcome, a call changes no file but its own output
    file; and a run of the batch driver changes no file but the output
    files of the entries of [PS_TO_FILENAME]. *)
Theorem only_output_files_change ps_name filename w p :
  (p ≠ out_name ps_name →
   files (process_font_entry ps_name filename w).2 !! p = files w !! p) ∧
  ((∀ entry, entry ∈ Dict.items (PS_TO_FILENAME (globals w)) →
             p ≠ out_name entry.1) →
   files (main w).2 !! p = files w !! p).
Proof.
  assert (ignores_stdout (λ w, files w !! p)) as Hout by done.
  assert (∀ f, p ≠ f → ignores_file f (λ w, files w !! p)) as Hfile.
  { intros f Hne g o fs t. cbn. by rewrite lookup_insert_ne. }
  split.
  - intros Hne. by apply (preserves_process_font_entry (λ w, files w !! p)); auto.
  - intros Hne. unfold main. do 3 erewrite bind_run_Return by reflexivity.
    cbn [globals].
    pose proof (preserves_for_entries (λ w, files w !! p)
                  (Dict.items (PS_TO_FILENAME (globals w))) Hout
                  (λ entry Hin, Hfile _ (Hne entry Hin))) as Hbatch.
    match goal with |- files ((_ ≫= _) ?w1).2 !! _ = _ => specialize (Hbatch w1) end.
    unfold mbind, M_bind.
    by destruct (for_entries _ _) as [[[]|e|] w2].
Qed.

Lemma prints_last_print (s : string) : prints_last (print s).
Proof. intros w. cbn. eauto. Qed.

Lemma prints_last_bind {A C : Type} (m : M A) (k : A → M C) :
  preserves stdout m → (∀ a, prints_last (k a)) → prints_last (m ≫= k).
Proof.
  intros Hm Hk w. specialize (Hm w). unfold mbind, M_bind.
  destruct (m w) as [[a|e|] w1]; cbn in *; [|done..].
  specialize (Hk a w1). by rewrite Hm in Hk.
Qed.

(** X3.  A call only ever adds to the output: first the announcement, then
    at most one more line, and nothing more when it raises. *)
Theorem output_is_appended ps_name filename w :
  ∃ more,
    stdout (process_font_entry ps_name filename w).2 =
      stdout w ++
      ("Generating " +:+ ps_name +:+ " from " +:+ source_file filename +:+ "...")
        :: more ∧
    (length more ≤ 1)%nat ∧
    (∀ e, (process_font_entry ps_name filename w).1 = Raise e → more = []).
Proof.
  assert (∀ f, ignores_file f stdout) as Hfile by done.
  assert (∀ (m : M unit) w, prints_last m →
            ∃ more, stdout (m w).2 = stdout w ++ more ∧ (length more ≤ 1)%nat ∧
                    ∀ e, (m w).1 = Raise e → more = []) as Hlast.
  { intros m w0 Hm. specialize (Hm w0). destruct (m w0) as [[[]|e|] w1]; cbn in *.
    - destruct Hm as [s ->]. exists [s]. split_and!; [done|cbn; lia|done].
    - exists []. rewrite app_nil_r. split_and!; [done|cbn; lia|done].
    - exists []. rewrite app_nil_r. split_and!; [done|cbn; lia|done]. }
  unfold process_font_entry. fold (source_file filename). cbn zeta.
  erewrite bind_run_Return by reflexivity.
  match goal with |- context [?m ?w0] =>
    lazymatch type of m with M unit =>
      destruct (Hlast m w0) as (more & Hmore & Hlen & Hraise) end end.
  - destruct (negb _); [apply prints_last_print|].
    destruct (TTFont_open _); [apply prints_last_print|].
    repeat (first
      [ apply prints_last_print
      | apply prints_last_bind;
        [ first [ apply preserves_global | apply preserves_call
                | apply preserves_for_items | by apply preserves_open_w
                | by apply preserves_write | by apply preserves_for_charstrings
                | by apply preserves_while_offset ]
        | intros ? ] ]).
  - exists more. rewrite Hmore. cbn [stdout]. rewrite <- app_assoc.
    split_and!; done.
Qed.

End Whole_result.

(** ** A call does not depend on what came before *)

Section Independence.
Context `{Platform}.

Lemma oblivious_ret {A : Type} (a : A) : oblivious (mret a).
Proof. by intros w1 w2 Hg. Qed.






Section File.
Variable f : string.

Lemma text_of_set_file t w : text_of f (set_file f t w) = t.
Proof. unfold text_of. by rewrite set_file_lookup. Qed.











End File.




End Independence.

(** ** Errors in the middle of a conversion *)

Section Mid_errors.
Context `{Platform}.

Lemma for_items_raises tt1 cm before name uni after glyph_name e acc w :
  (∀ item g, item ∈ before → cm !! item.2 = Some g →
             ∃ gid, getGlyphID tt1 g = inr gid) →
  cm !! uni = Some glyph_name →
  getGlyphID tt1 glyph_name = inl e →
  for_items tt1 (Some cm) (before ++ (name, uni) :: after) acc w = (Raise e, w).
Proof.
  intros Hbefore Hg He. revert acc.
  induction before as [|[name' uni'] before IH]; intros acc; cbn [app for_items].
  - by rewrite Hg, He.
  - destruct (cm !! uni') as [g'|] eqn:Hg'.
    + destruct (Hbefore (name', uni') g') as [gid Hgid]; [by left|done|].
      rewrite Hgid. erewrite bind_run_Return by reflexivity.
      apply IH. intros item g Hin. apply Hbefore. by right.
    + apply IH. intros item g Hin. apply Hbefore. by right.
Qed.

(** The run of a call up to the point where the font has been subsetted
    and its cmap fetched. *)
Lemma process_font_entry_to_cmap ps_name filename w tt0 tt1 cmap :
  os_path_exists (source_file filename) = true →
  TTFont_open (source_file filename) = inr tt0 →
  subsetter_subset drop_tables (Dict.values (STD_ENC_MAP (globals w))) tt0 = inr tt1 →
  getBestCmap tt1 = inr cmap →
  ∃ k : list string → M unit,
    process_font_entry ps_name filename w =
      (for_items tt1 cmap (Dict.items (STD_ENC_MAP (globals w))) [] ≫= k)
        (announced ps_name filename w) ∧
    ∀ charstrings,
      k charstrings =
        (binary_data ← call (save tt1);
         f ← open_w (out_name ps_name);
         write f ("% Derived from " +:+ Str.replace filename ".ttf" "" +:+
                  " which is licensed under the GUST Font License (GFL)" +:+ LF) ;;
         write f ("% The original TeXGyre fonts can be downloaded from " +:+
                  "https://www.gust.org.pl/projects/e-foundry/tex-gyre" +:+ LF) ;;
         write f ("% The license can be accessed at " +:+
                  "https://www.gust.org.pl/projects/e-foundry/licenses/GUST-FONT-LICENSE.txt/view" +:+
                  LF +:+ LF) ;;
         write f ("11 dict begin" +:+ LF) ;;
         write f ("  /FontName /" +:+ ps_name +:+ " def" +:+ LF) ;;
         write f ("  /FontType 42 def" +:+ LF) ;;
         write f ("  /FontMatrix [1 0 0 1 0 0] def" +:+ LF) ;;
         write f ("  /PaintType 0 def" +:+ LF) ;;
         write f ("  /Encoding StandardEncoding def" +:+ LF) ;;
         h ← call (getitem_head tt1);
         write f ("  /FontBBox [" +:+ Str.of_int (xMin h) +:+ " " +:+ Str.of_int (yMin h) +:+
                  " " +:+ Str.of_int (xMax h) +:+ " " +:+ Str.of_int (yMax h) +:+
                  "] def" +:+ LF) ;;
         write f ("  /CharStrings " +:+ Str.of_int (Z.of_nat (length charstrings) + 5) +:+
                  " dict dup begin" +:+ LF) ;;
         write f ("    /.notdef 0 def" +:+ LF) ;;
         for_charstrings f charstrings 1 ;;
         write f (LF +:+ "  end def" +:+ LF) ;;
         write f ("  /sfnts [" +:+ LF) ;;
         while_offset (length binary_data) f binary_data 0 ;;
         write f ("  ] def" +:+ LF) ;;
         write f ("/" +:+ ps_name +:+ " currentdict end definefont pop" +:+ LF) ;;
         print ("  -> Success: " +:+ out_name ps_name +:+ " written.")).
Proof.
  intros Hex Hopen Hsub Hcmap. eexists. split; [|reflexivity].
  unfold process_font_entry. fold (source_file filename). fold (out_name ps_name).
  rewrite Hex, Hopen. cbn [negb].
  do 2 erewrite bind_run_Return by reflexivity. cbn [globals].
  rewrite Hsub. erewrite bind_run_Return by reflexivity.
  rewrite Hcmap. do 2 erewrite bind_run_Return by reflexivity.
  reflexivity.
Qed.

(** X6.  A font without Unicode cmap: when the encoding table is not empty,
    the call raises the [TypeError] of the membership test on [None], before
    any file is opened. *)
Theorem no_cmap_raises ps_name filename w tt0 tt1 :
  os_path_exists (source_file filename) = true →
  TTFont_open (source_file filename) = inr tt0 →
  subsetter_subset drop_tables (Dict.values (STD_ENC_MAP (globals w))) tt0 = inr tt1 →
  getBestCmap tt1 = inr None →
  Dict.items (STD_ENC_MAP (globals w)) ≠ [] →
  process_font_entry ps_name filename w
    = (Raise TypeError_NoneType, announced ps_name filename w).
Proof.
  intros Hex Hopen Hsub Hcmap Hne.
  destruct (process_font_entry_to_cmap ps_name filename w tt0 tt1 None)
    as (k & -> & _); [done..|].
  destruct (Dict.items _) as [|[name uni] items]; [done|].
  by erewrite bind_run_Raise by reflexivity.
Qed.

(** X7.  A glyph that the cmap names but the font cannot look up: the
    exception of the first such entry of the table leaves the call, before
    any file is opened. *)
Theorem glyph_lookup_failure_raises ps_name filename w tt0 tt1 cm
    before name uni after glyph_name e :
  os_path_exists (source_file filename) = true →
  TTFont_open (source_file filename) = inr tt0 →
  subsetter_subset drop_tables (Dict.values (STD_ENC_MAP (globals w))) tt0 = inr tt1 →
  getBestCmap tt1 = inr (Some cm) →
  Dict.items (STD_ENC_MAP (globals w)) = before ++ (name, uni) :: after →
  (∀ item g, item ∈ before → cm !! item.2 = Some g →
             ∃ gid, getGlyphID tt1 g = inr gid) →
  cm !! uni = Some glyph_name →
  getGlyphID tt1 glyph_name = inl e →
  process_font_entry ps_name filename w = (Raise e, announced ps_name filename w).
Proof.
  intros Hex Hopen Hsub Hcmap Hitems Hbefore Hg He.
  destruct (process_font_entry_to_cmap ps_name filename w tt0 tt1 (Some cm))
    as (k & -> & _); [done..|].
  rewrite Hitems. by erewrite bind_run_Raise by by eapply for_items_raises.
Qed.

Lemma write_runs f s w :
  (∀ written s, write_error f written s = None) →
  write f s w = (Return (), set_file f (text_of f w +:+ s) w).
Proof. intros Hok. unfold write. by rewrite Hok. Qed.

(** X8.  The [head] table is read after the output file has been opened
    and written to nine times: when reading it raises, the exception leaves
    the call and the output file is left with the licence comment and the
    six lines down to [/Encoding], and nothing else. *)
Theorem head_failure_leaves_truncated_file ps_name filename w tt0 tt1 cmap
    charstrings binary_data e :
  os_path_exists (source_file filename) = true →
  TTFont_open (source_file filename) = inr tt0 →
  subsetter_subset drop_tables (Dict.values (STD_ENC_MAP (globals w))) tt0 = inr tt1 →
  getBestCmap tt1 = inr cmap →
  for_items tt1 cmap (Dict.items (STD_ENC_MAP (globals w))) [] w
    = (Return charstrings, w) →
  save tt1 = inr binary_data →
  open_error (out_name ps_name) = None →
  (∀ written s, write_error (out_name ps_name) written s = None) →
  getitem_head tt1 = inl e →
  process_font_entry ps_name filename w =
    (Raise e,
     {| globals := globals w;
        stdout := stdout w ++ ["Generating " +:+ ps_name +:+ " from " +:+
                               source_file filename +:+ "..."];
        files := <[out_name ps_name := resource_head ps_name filename]> (files w) |}).
Proof.
  intros Hex Hopen Hsub Hcmap Hitems Hsave Hout Hwrite Hhead.
  destruct (process_font_entry_to_cmap ps_name filename w tt0 tt1 cmap)
    as (k & -> & Hk); [done..|].
  apply for_items_pure in Hitems as [_ Hitems].
  erewrite bind_run_Return by apply Hitems. rewrite Hk, Hsave, Hhead.
  erewrite bind_run_Return by reflexivity.
  erewrite bind_run_Return by (unfold open_w; by rewrite Hout).
  do 9 (erewrite bind_run_Return by (by apply write_runs);
        rewrite text_of_set_file, set_file_set_file).
  erewrite bind_run_Raise by reflexivity.
  unfold set_file, announced, resource_head, license_comment. cbn [globals stdout files].
  by rewrite <- !str_app_assoc.
Qed.

End Mid_errors.

(** ** Order and number of what is emitted *)

Lemma list_chunks_length {A : Type} (budget n : nat) (l : list A) :
  (0 < n)%nat → (length l ≤ budget)%nat →
  Z.of_nat (length (list_chunks budget n l))
  = (Z.of_nat (length l) + Z.of_nat n - 1) / Z.of_nat n.
Proof.
  intros Hn. revert l. induction budget as [|budget IH]; intros l Hl.
  - destruct l; [|cbn in Hl; lia]. cbn. symmetry. apply Z.div_small. lia.
  - destruct l as [|x l]; [cbn; symmetry; apply Z.div_small; lia|].
    cbn [list_chunks length]. rewrite Nat2Z.inj_succ, IH, length_drop
      by (rewrite length_drop; cbn in *; lia).
    destruct (decide (length (x :: l) ≤ n)%nat) as [Hshort|Hlong].
    + replace (length (x :: l) - n)%nat with 0%nat by lia.
      rewrite Z.div_small by lia.
      apply (Z.div_unique _ _ _ (Z.of_nat (length (x :: l)) - 1)); cbn [length] in *; lia.
    + pose proof (Z.div_mod (Z.of_nat (length (x :: l) - n) + Z.of_nat n - 1)
                    (Z.of_nat n)) as Hdiv.
      pose proof (Z.mod_pos_bound (Z.of_nat (length (x :: l) - n) + Z.of_nat n - 1)
                    (Z.of_nat n)) as Hmod.
      apply (Z.div_unique _ _ _
               ((Z.of_nat (length (x :: l) - n) + Z.of_nat n - 1) `mod` Z.of_nat n));
        [lia|]. cbn [length] in *. lia.
Qed.

Section Emitted.
Context `{Platform}.

Lemma defs_names_sublist tt1 cm (items : list (string * Z)) :
  (omap (def_of tt1 cm) items).*1 `sublist_of` items.*1.
Proof.
  induction items as [|[name uni] items IH]; [done|]. cbn [omap list_omap].
  destruct (def_of tt1 cm (name, uni)) as [d|] eqn:Hd.
  - apply def_of_Some in Hd as [Hd _]. cbn in *. rewrite Hd. by apply sublist_skip.
  - cbn. by apply sublist_cons.
Qed.

(** X9.  After a successful conversion the names defined in the
    [CharStrings] dictionary, after [.notdef], come in the order of the
    encoding table, and no name is defined twice. *)
Theorem charstrings_in_table_order ps_name filename w tt1 w' :
  Loaded w → converts ps_name filename w tt1 w' →
  ∃ defs pre rest,
    files w' !! out_name ps_name =
      Some (pre +:+ CharStrings_dict (Z.of_nat (length defs) + 5) defs +:+ rest) ∧
    defs.*1 `sublist_of` Dict.keys (STD_ENC_MAP (globals w)) ∧
    NoDup defs.*1.
Proof.
  intros Hload Hconv.
  destruct (converts_CharStrings_loaded _ _ _ _ _ Hload Hconv)
    as (cm & pre & rest & Hcmap & Hfile & Hnd & Hall).
  eexists _, pre, rest. split_and!; [exact Hfile|apply defs_names_sublist|].
  eapply sublist_NoDup; [exact Hnd|]. apply defs_names_sublist.
Qed.

(** X10.  After a successful conversion the [sfnts] array holds one string
    for every started block of 32768 bytes of the font data, that is
    [(n + 32767) / 32768] strings for [n] bytes; for a font that saves to no
    bytes at all the array is empty. *)
Theorem sfnts_string_count ps_name filename w tt1 w' :
  converts ps_name filename w tt1 w' →
  ∃ binary_data pre segments texts,
    save tt1 = inr binary_data ∧
    files w' !! out_name ps_name =
      Some (pre +:+ ("  /sfnts [" +:+ LF) +:+ Str.cat texts +:+
            ("  ] def" +:+ LF) +:+
            ("/" +:+ ps_name +:+ " currentdict end definefont pop" +:+ LF)) ∧
    concat segments = binary_data ∧
    Forall2 sfnts_string segments texts ∧
    Z.of_nat (length texts) = (Z.of_nat (length binary_data) + 32767) / 32768 ∧
    (binary_data = [] → texts = []).
Proof.
  intros (data & pre & Hsave & Hfile)%converts_sfnts.
  exists data, pre, (list_chunks (length data) (Z.to_nat CHUNK_SIZE) data).
  eexists. split_and!; [done|exact Hfile| | | |].
  - apply list_chunks_concat; [|done]. unfold CHUNK_SIZE. lia.
  - apply Forall2_fmap_r, Forall_Forall2_diag, Forall_forall.
    intros chunk _. apply segment_text_sfnts_string.
  - rewrite length_fmap, list_chunks_length by (unfold CHUNK_SIZE; lia).
    unfold CHUNK_SIZE. f_equal; lia.
  - by intros ->.
Qed.

End Emitted.

(** ** The module body *)

Section Dicts.
Context {K V : Type} `{EqDecision K}.

Lemma dict_get_setitem_eq (k : K) (v : V) (d : dict K V) :
  dict_get k (Dict.setitem k v d) = Some v.
Proof.
  induction d as [|[k' v'] d IH]; cbn.
  - by rewrite decide_True.
  - destruct (decide (k = k')) as [->|Hne]; cbn.
    + by rewrite decide_True.
    + by rewrite decide_False.
Qed.

Lemma dict_get_setitem_ne (k k' : K) (v : V) (d : dict K V) :
  k ≠ k' → dict_get k' (Dict.setitem k v d) = dict_get k' d.
Proof.
  intros Hne. induction d as [|[k0 v0] d IH]; cbn.
  - by rewrite decide_False.
  - destruct (decide (k = k0)) as [->|Hne0]; cbn.
    + by rewrite !decide_False.
    + by rewrite IH.
Qed.

Lemma dict_keys_setitem (k : K) (v : V) (d : dict K V) :
  Dict.keys (Dict.setitem k v d)
  = Dict.keys d ++ (if decide (k ∈ Dict.keys d) then [] else [k]).
Proof.
  unfold Dict.keys. induction d as [|[k' v'] d IH]; cbn.
  - rewrite decide_False; [done|]. by intros ?%elem_of_nil.
  - destruct (decide (k = k')) as [->|Hne]; cbn.
    + rewrite decide_True by by left. by rewrite app_nil_r.
    + rewrite IH. f_equal. destruct (decide (k ∈ d.*1)) as [Hin|Hin].
      * rewrite decide_True; [done|]. by right.
      * rewrite decide_False; [done|]. by intros [?|?]%elem_of_cons.
Qed.

Lemma dict_get_assignments (kvs : list (K * V)) (d : dict K V) :
  NoDup kvs.*1 →
  (∀ k v, (k, v) ∈ kvs →
          dict_get k (foldl (λ d kv, Dict.setitem kv.1 kv.2 d) d kvs) = Some v) ∧
  (∀ k, k ∉ kvs.*1 →
        dict_get k (foldl (λ d kv, Dict.setitem kv.1 kv.2 d) d kvs) = dict_get k d).
Proof.
  revert d. induction kvs as [|[k0 v0] kvs IH]; intros d Hnd.
  - split; [by intros ?? ?%elem_of_nil|done].
  - cbn in Hnd. apply NoDup_cons in Hnd as [Hk0 Hnd].
    destruct (IH (Dict.setitem k0 v0 d) Hnd) as [Hin Hout]. cbn [foldl fst snd].
    split.
    + intros k v [[= -> ->]|Hkv]%elem_of_cons; [|by apply Hin].
      by rewrite Hout, dict_get_setitem_eq.
    + intros k [Hne Hk]%not_elem_of_cons.
      by rewrite Hout, dict_get_setitem_ne.
Qed.

Lemma dict_keys_assignments (kvs : list (K * V)) (d : dict K V) :
  ∃ new, Dict.keys (foldl (λ d kv, Dict.setitem kv.1 kv.2 d) d kvs)
         = Dict.keys d ++ new ∧
         (NoDup (Dict.keys d) →
          NoDup (Dict.keys (foldl (λ d kv, Dict.setitem kv.1 kv.2 d) d kvs))).
Proof.
  revert d. induction kvs as [|[k0 v0] kvs IH]; intros d.
  - exists []. by rewrite app_nil_r.
  - destruct (IH (Dict.setitem k0 v0 d)) as (new & Hkeys & Hnd). cbn [foldl fst snd].
    rewrite dict_keys_setitem in Hkeys, Hnd.
    eexists. split; [by rewrite Hkeys, <- app_assoc|].
    intros Hd. apply Hnd. destruct (decide (k0 ∈ Dict.keys d)).
    + by rewrite app_nil_r.
    + apply NoDup_app. split_and!; [done| |apply NoDup_singleton].
      intros k Hk ->%list_elem_of_singleton. done.
Qed.

End Dicts.

Lemma add_alphanumerics_assignments (d : dict string Z) :
  add_alphanumerics d = foldl (λ d kv, Dict.setitem kv.1 kv.2 d) d alphanumerics.
Proof. reflexivity. Qed.

Lemma alphanumerics_NoDup : NoDup alphanumerics.*1.
Proof. apply (bool_decide_unpack _). vm_compute. exact I. Qed.

(** X11.  Whatever [STD_ENC_MAP] holds when the three loops of the module
    body start, after them every digit name maps to the code point of its
    digit and every ASCII letter to its own code point (a value stored
    before under such a name is replaced), every other key maps to what it
    mapped to, the keys that were there keep their places at the front, and
    the keys stay distinct. *)
Theorem alphanumerics_added (d : dict string Z) :
  (∀ i name, digit_names !! i = Some name →
             dict_get name (add_alphanumerics d) = Some (0x30 + Z.of_nat i)) ∧
  (∀ c, 65 ≤ c ≤ 90 ∨ 97 ≤ c ≤ 122 →
        dict_get (Str.chr c) (add_alphanumerics d) = Some c) ∧
  (∀ k, k ∉ digit_names →
        (∀ c, 65 ≤ c ≤ 90 ∨ 97 ≤ c ≤ 122 → k ≠ Str.chr c) →
        dict_get k (add_alphanumerics d) = dict_get k d) ∧
  (∃ new, Dict.keys (add_alphanumerics d) = Dict.keys d ++ new) ∧
  (NoDup (Dict.keys d) → NoDup (Dict.keys (add_alphanumerics d))).
Proof.
  rewrite add_alphanumerics_assignments.
  destruct (dict_get_assignments alphanumerics d alphanumerics_NoDup) as [Hin Hout].
  destruct (dict_keys_assignments alphanumerics d) as (new & Hkeys & Hnd).
  split_and!; [| | |by eauto|done].
  - intros i name Hi. apply Hin. unfold alphanumerics.
    apply elem_of_app. left. apply list_elem_of_fmap. exists i.
    pose proof (lookup_lt_Some _ _ _ Hi) as Hlt. cbn in Hlt.
    split; [|apply elem_of_seq; lia].
    by rewrite (list_lookup_total_correct _ _ _ Hi).
  - intros c Hc. apply Hin. unfold alphanumerics.
    apply elem_of_app. right. apply elem_of_app.
    destruct Hc as [Hc|Hc]; [left|right]; apply list_elem_of_fmap.
    + exists (Z.to_nat (c - 65)). split; [|apply elem_of_seq; lia].
      by replace (65 + Z.of_nat (Z.to_nat (c - 65))) with c by lia.
    + exists (Z.to_nat (c - 97)). split; [|apply elem_of_seq; lia].
      by replace (97 + Z.of_nat (Z.to_nat (c - 97))) with c by lia.
  - intros k Hdigit Hletter. apply Hout. unfold alphanumerics.
    rewrite !fmap_app, !elem_of_app, <- !list_fmap_compose.
    intros [Hk|[Hk|Hk]]; apply list_elem_of_fmap in Hk as (i & -> & Hi%elem_of_seq);
      cbn in *.
    + apply Hdigit. apply list_elem_of_lookup. exists i.
      apply list_lookup_lookup_total_lt. cbn. lia.
    + by apply (Hletter (65 + Z.of_nat i)); [lia|].
    + by apply (Hletter (97 + Z.of_nat i)); [lia|].
Qed.

(** ** The batch driver *)

Section Batch.
Context `{Platform}.

Lemma for_entries_app items1 items2 w :
  for_entries (items1 ++ items2) w = (for_entries items1 ;; for_entries items2) w.
Proof.
  revert w. induction items1 as [|[ps_name filename] items1 IH]; intros w; [done|].
  cbn [app for_entries]. unfold mbind, M_bind in *.
  destruct (process_font_entry ps_name filename w) as [[[]|e|] w1]; [|done..].
  apply IH.
Qed.

Lemma process_font_entry_missing ps_name filename w :
  os_path_exists (source_file filename) = false →
  process_font_entry ps_name filename w =
    (Return (),
     {| globals := globals w;
        stdout := stdout w ++ skipped_lines (ps_name, filename);
        files := files w |}).
Proof.
  intros Hex. unfold process_font_entry. fold (source_file filename).
  rewrite Hex. cbn [negb]. erewrite bind_run_Return by reflexivity.
  unfold print, skipped_lines. cbn [globals stdout files fst snd].
  by rewrite <- app_assoc.
Qed.

Lemma for_entries_missing items w :
  (∀ entry, entry ∈ items → os_path_exists (source_file entry.2) = false) →
  for_entries items w =
    (Return (),
     {| globals := globals w;
        stdout := stdout w ++ concat (skipped_lines <$> items);
        files := files w |}).
Proof.
  revert w. induction items as [|[ps_name filename] items IH]; intros w Hmissing.
  - cbn. rewrite app_nil_r. by destruct w.
  - cbn [for_entries].
    erewrite bind_run_Return
      by (apply process_font_entry_missing; by apply (Hmissing (ps_name, filename)); left).
    rewrite IH by (intros entry Hin; apply Hmissing; by right).
    cbn [globals stdout files fmap list_fmap concat]. by rewrite <- app_assoc.
Qed.

(** X12.  When none of the source files of the mapping is there, the batch
    returns normally, writes no file, and prints the opening line, the two
    lines of every entry in the order of the mapping, and the closing
    line. *)
Theorem batch_without_source_files w :
  (∀ entry, entry ∈ Dict.items (PS_TO_FILENAME (globals w)) →
            os_path_exists (source_file entry.2) = false) →
  main w =
    (Return (),
     {| globals := globals w;
        stdout := stdout w ++
          ["Starting conversion for " +:+
           Str.of_int (Dict.len (PS_TO_FILENAME (globals w))) +:+ " fonts..."] ++
          concat (skipped_lines <$> Dict.items (PS_TO_FILENAME (globals w))) ++
          ["Batch processing complete."];
        files := files w |}).
Proof.
  intros Hmissing. unfold main. do 3 erewrite bind_run_Return by reflexivity.
  cbn [globals]. erewrite bind_run_Return by by apply for_entries_missing.
  unfold print. cbn [globals stdout files]. by rewrite <- !app_assoc.
Qed.

(** X13.  The entries are converted one after the other, and an exception
    ends the batch where it is raised: the entries after it are not
    attempted, the closing line is not printed, and the exception leaves
    the driver. *)
Theorem batch_stops_at_first_raise w before ps_name filename after w1 e w2 :
  Dict.items (PS_TO_FILENAME (globals w)) = before ++ (ps_name, filename) :: after →
  for_entries before
    {| globals := globals w;
       stdout := stdout w ++
         ["Starting conversion for " +:+
          Str.of_int (Dict.len (PS_TO_FILENAME (globals w))) +:+ " fonts..."];
       files := files w |} = (Return (), w1) →
  process_font_entry ps_name filename w1 = (Raise e, w2) →
  main w = (Raise e, w2).
Proof.
  intros Hitems Hbefore Hraise. unfold main.
  do 3 erewrite bind_run_Return by reflexivity. cbn [globals].
  rewrite Hitems. erewrite bind_run_Raise; [reflexivity|].
  rewrite for_entries_app. erewrite bind_run_Return by exact Hbefore.
  cbn [for_entries]. by erewrite bind_run_Raise by exact Hraise.
Qed.

End Batch.

(** ** The further properties on the demonstration machines *)


Lemma only_output_files_change_witness :
  let P := Demo.platform (Demo.machine (Some Demo.heros)) in
  files (@process_font_entry P "TG-Heros" "texgyreheros-regular.ttf" Faulty.w1).2
    !! "notes.txt" = Some "keep" ∧
  files (@main P Faulty.w1).2 !! "notes.txt" = Some "keep".
Proof.
  cbn zeta.
  destruct (@only_output_files_change (Demo.platform (Demo.machine (Some Demo.heros)))
              "TG-Heros" "texgyreheros-regular.ttf" Faulty.w1 "notes.txt")
    as [Hcall Hbatch].
  split.
  - rewrite Hcall; [vm_compute; reflexivity|].
    intros Heq. vm_compute in Heq. discriminate Heq.
  - rewrite Hbatch; [vm_compute; reflexivity|].
    apply Forall_forall. apply (bool_decide_unpack _). vm_compute. exact I.
Defined.



Lemma no_cmap_raises_witness :
  let P := Faulty.platform (Demo.machine (Some Demo.heros)) true None in
  @process_font_entry P "TG-Heros" "texgyreheros-regular.ttf" Demo.w0 =
    (@Raise P unit "argument of type 'NoneType' is not iterable",
     {| globals := globals_at_load;
        stdout := ["Generating TG-Heros from " +:+ Demo.heros_ttf +:+ "..."];
        files := ∅ |}).
Proof.
  apply (@no_cmap_raises
           (Faulty.platform (Demo.machine (Some Demo.heros)) true None)
           "TG-Heros" "texgyreheros-regular.ttf" Demo.w0 Demo.heros Demo.heros_subset);
    [vm_compute; reflexivity..|].
  intros Heq. vm_compute in Heq. discriminate Heq.
Defined.

Lemma glyph_lookup_failure_raises_witness :
  let P := Demo.platform (Demo.machine (Some Faulty.orphan)) in
  @process_font_entry P "TG-Heros" "texgyreheros-regular.ttf" Demo.w0 =
    (@Raise P unit "A",
     {| globals := globals_at_load;
        stdout := ["Generating TG-Heros from " +:+ Demo.heros_ttf +:+ "..."];
        files := ∅ |}).
Proof.
  apply (@glyph_lookup_failure_raises
           (Demo.platform (Demo.machine (Some Faulty.orphan)))
           "TG-Heros" "texgyreheros-regular.ttf" Demo.w0 Faulty.orphan Faulty.orphan
           {[ 65 := "A" ]}
           (take 98 (Dict.items (STD_ENC_MAP globals_at_load))) "A" 65
           (drop 99 (Dict.items (STD_ENC_MAP globals_at_load))) "A" "A");
    [vm_compute; reflexivity..| |vm_compute; reflexivity|vm_compute; reflexivity].
  assert (Forall (λ item : string * Z, ({[ 65 := "A" ]} : gmap Z string) !! item.2 = None)
            (take 98 (Dict.items (STD_ENC_MAP globals_at_load)))) as Hnone.
  { apply (bool_decide_unpack _). vm_compute. exact I. }
  intros item g Hin Hg. rewrite Forall_forall in Hnone.
  rewrite (Hnone item Hin) in Hg. discriminate Hg.
Defined.

Lemma head_failure_leaves_truncated_file_witness :
  let P := Faulty.platform (Demo.machine (Some Demo.heros)) false
             (Some "'head'") in
  @process_font_entry P "TG-Heros" "texgyreheros-regular.ttf" Demo.w0 =
    (@Raise P unit "'head'",
     {| globals := globals_at_load;
        stdout := ["Generating TG-Heros from " +:+ Demo.heros_ttf +:+ "..."];
        files := {[ "scripts/fonts/output/TG-Heros.ps" :=
                      resource_head "TG-Heros" "texgyreheros-regular.ttf" ]} |}).
Proof.
  apply (@head_failure_leaves_truncated_file
           (Faulty.platform (Demo.machine (Some Demo.heros)) false (Some "'head'"))
           "TG-Heros" "texgyreheros-regular.ttf" Demo.w0 Demo.heros Demo.heros_subset
           (Some (list_to_map (Demo.cmap Demo.heros_subset)))
           ["/quoteright 2 def"; "/quoteleft 4 def"; "/quotesingle 2 def";
            "/grave 4 def"; "/zero 3 def"; "/A 1 def"]
           ([x00; x01; x00; x00; xab; xff]%byte ++ replicate 40 x7f%byte));
    vm_compute; reflexivity.
Defined.

Lemma charstrings_in_table_order_witness :
  ∃ defs pre rest,
    files (Demo.after (Demo.machine (Some Demo.heros)))
      !! "scripts/fonts/output/TG-Heros.ps" =
      Some (pre +:+ CharStrings_dict (Z.of_nat (length defs) + 5) defs +:+ rest) ∧
    defs.*1 `sublist_of` Dict.keys (STD_ENC_MAP (globals Demo.w0)) ∧
    NoDup defs.*1.
Proof.
  exact (charstrings_in_table_order _ _ _ _ _ demo_loaded demo_heros_converts).
Defined.

Lemma sfnts_string_count_witness :
  ∃ binary_data pre segments texts,
    @save (Demo.platform (Demo.machine (Some Demo.heros))) Demo.heros_subset
      = inr binary_data ∧
    files (Demo.after (Demo.machine (Some Demo.heros)))
      !! "scripts/fonts/output/TG-Heros.ps" =
      Some (pre +:+ ("  /sfnts [" +:+ LF) +:+ Str.cat texts +:+
            ("  ] def" +:+ LF) +:+
            ("/" +:+ "TG-Heros" +:+ " currentdict end definefont pop" +:+ LF)) ∧
    concat segments = binary_data ∧
    Forall2 sfnts_string segments texts ∧
    Z.of_nat (length texts) = (Z.of_nat (length binary_data) + 32767) / 32768 ∧
    (binary_data = [] → texts = []).
Proof. exact (sfnts_string_count _ _ _ _ _ demo_heros_converts). Defined.

Lemma alphanumerics_added_witness :
  let d := add_alphanumerics [("A", 1); ("space", 32)] in
  dict_get "seven" d = Some 55 ∧ dict_get "A" d = Some 65 ∧
  dict_get "space" d = Some 32 ∧ (∃ new, Dict.keys d = ["A"; "space"] ++ new).
Proof.
  cbn zeta.
  destruct (alphanumerics_added [("A", 1); ("space", 32)])
    as (Hdigit & Hletter & Hother & Hkeys & _).
  split_and!.
  - apply (Hdigit 7%nat "seven"). reflexivity.
  - apply (Hletter 65). left. split; [done|]. by vm_compute.
  - rewrite Hother; [reflexivity| |].
    + apply (bool_decide_unpack _). vm_compute. exact I.
    + intros c Hc Heq. unfold Str.chr in Heq. discriminate Heq.
  - exact Hkeys.
Defined.

Lemma batch_without_source_files_witness :
  let P := Demo.platform Demo.empty_ttfs in
  @main P Demo.w0 =
    (@Return P unit (),
     {| globals := globals_at_load;
        stdout :=
          ["Starting conversion for " +:+ "33" +:+ " fonts..."] ++
          concat (@skipped_lines P <$> Dict.items (PS_TO_FILENAME globals_at_load)) ++
          ["Batch processing complete."];
        files := ∅ |}).
Proof.
  apply (@batch_without_source_files (Demo.platform Demo.empty_ttfs) Demo.w0).
  intros entry _. reflexivity.
Defined.

Lemma batch_stops_at_first_raise_witness :
  let P := Demo.platform Demo.no_output_dir in
  @main P Demo.w0 =
    (@Raise P unit "No such file or directory",
     {| globals := globals_at_load;
        stdout := ["Starting conversion for 33 fonts...";
                   "Generating TG-Heros from " +:+ Demo.heros_ttf +:+ "..."];
        files := ∅ |}).
Proof.
  apply (@batch_stops_at_first_raise (Demo.platform Demo.no_output_dir) Demo.w0
           [] "TG-Heros" "texgyreheros-regular.ttf"
           (drop 1 (Dict.items (PS_TO_FILENAME globals_at_load)))
           {| globals := globals_at_load;
              stdout := ["Starting conversion for 33 fonts..."];
              files := ∅ |});
    vm_compute; reflexivity.
Defined.

(** ** Two more facts about a conversion *)

Lemma replace_extension (base : string) :
  str_forallb (λ c, negb (Ascii.eqb c ".")) base = true →
  Str.replace (base +:+ ".ttf") ".ttf" "" = base.
Proof.
  unfold Str.replace. induction base as [|c base IH]; [done|].
  cbn [str_forallb]. intros [Hc Hbase]%andb_prop.
  rewrite str_app_cons. cbn [Str.replace_from String.prefix].
  destruct (ascii_dec "." c) as [<-|_]; [done|].
  by rewrite IH.
Qed.

Example replace_every_occurrence : Str.replace "a.ttf.ttf" ".ttf" "" = "a".
Proof. reflexivity. Qed.

Section More.
Context `{Platform}.


(** X15.  For a file name that is a name without dot followed by [.ttf],
    the resource of a successful conversion starts with the comment line
    that names the file without the extension. *)
Theorem license_names_the_font_file ps_name base w tt1 w' :
  str_forallb (λ c, negb (Ascii.eqb c ".")) base = true →
  converts ps_name (base +:+ ".ttf") w tt1 w' →
  ∃ rest,
    files w' !! out_name ps_name =
      Some (("% Derived from " +:+ base +:+
             " which is licensed under the GUST Font License (GFL)" +:+ LF) +:+
            rest).
Proof.
  intros Hbase (cmap & cs & data & h & _ & _ & _ & _ & _ & ->)%converts_inv.
  eexists. cbn [files]. rewrite lookup_insert_eq. f_equal.
  unfold Type42_text, license_comment. rewrite (replace_extension _ Hbase).
  rewrite <- !str_app_assoc. reflexivity.
Qed.

End More.


Lemma license_names_the_font_file_witness :
  ∃ rest,
    files (Demo.after (Demo.machine (Some Demo.heros)))
      !! "scripts/fonts/output/TG-Heros.ps" =
      Some (("% Derived from " +:+ "texgyreheros-regular" +:+
             " which is licensed under the GUST Font License (GFL)" +:+ LF) +:+
            rest).
Proof.
  apply (@license_names_the_font_file
           (Demo.platform (Demo.machine (Some Demo.heros)))
           "TG-Heros" "texgyreheros-regular" Demo.w0 Demo.heros_subset).
  - reflexivity.
  - exact demo_heros_converts.
Defined.
